(** * NYC street-tree dashboard: the data loader and the two chart callbacks

    A shallow embedding of [app.py].  The pandas frames the program builds are
    modelled as lists of rows, column by column as the source names them; the
    two callbacks run in a small state-and-exception monad over a store of
    frame objects, so that the in-place updates the source performs
    ([health_prop.loc[2] = ...], column assignments) are visible as writes.

    Modelling conventions.
    - Strings are ASCII strings; Python compares and title-cases by code
      point, which agrees with the byte-wise reading on ASCII text.
    - The count column is an integer column ([Z]).
    - A float64 that results from [round(x / y, 2)] is kept exactly: a finite
      value is an integer number of hundredths, and the division is taken
      over the rationals before rounding half to even.  The non-finite
      results of a division by zero ([inf], [-inf], [nan]) are kept apart.
      The program rounds the float64 quotient instead, so where the exact
      quotient lies halfway between two hundredths it may return either of
      them (23/40 gives 0.57, 109/200 gives 0.55, where the even hundredths
      are 0.58 and 0.54); [div_round2] then stands for one of the two, and
      what is stated of a rounded value that can be such a tie is stated of
      both ([rounds_to]). *)

From Stdlib Require Import ZArith List String Ascii Bool Lia.
From Stdlib Require Import Sorted OrdersEx RelationClasses Permutation.
Import ListNotations.

Open Scope string_scope.
Open Scope list_scope.
Open Scope Z_scope.

(** ** Values *)

(** [round(x / y, 2)] as a float: [Fin h] stands for [h / 100]. *)
Inductive float2 : Type :=
| Fin (hundredths : Z)
| PosInf
| NegInf
| NaN.

(** Rounding [p / q] to the nearest integer, ties to the even one, [q > 0]. *)
Definition round_half_even_pos (p q : Z) : Z :=
  let f := p / q in
  let r := p mod q in
  if 2 * r <? q then f
  else if q <? 2 * r then f + 1
  else if Z.even f then f else f + 1.

Definition round_half_even (p q : Z) : Z :=
  if q <? 0 then round_half_even_pos (- p) (- q) else round_half_even_pos p q.

(** [round(x / y, 2)] on integer operands; numpy division does not raise.
    A hundredth nearest to the exact quotient; at an exact tie the even one,
    where the float64 computation may give the other. *)
Definition div_round2 (x y : Z) : float2 :=
  if y =? 0 then
    if x =? 0 then NaN else if 0 <? x then PosInf else NegInf
  else Fin (round_half_even (100 * x) y).

Definition Zsum (l : list Z) : Z := fold_right Z.add 0 l.

(** ** Rows of the table *)

(** A row as [pd.read_json] delivers it: any field may be missing. *)
Record RawRow : Type := mkRaw {
  raw_spc_common : option string;
  raw_boroname : option string;
  raw_health : option string;
  raw_steward : option string;
  raw_count_tree_id : option Z
}.

(** A row without missing fields, as the callbacks read it. *)
Record Row : Type := mkRow {
  spc_common : string;
  boroname : string;
  health : string;
  steward : string;
  count_tree_id : Z
}.

(** ** Data tidying (lines 29-35) *)

Definition isna {A : Type} (x : option A) : bool :=
  match x with Some _ => false | None => true end.

Definition any_na (r : RawRow) : bool :=
  isna (raw_spc_common r) || isna (raw_boroname r) || isna (raw_health r)
  || isna (raw_steward r) || isna (raw_count_tree_id r).

(** [nyctrees.dropna()] *)
Definition dropna (t : list RawRow) : list RawRow :=
  filter (fun r => negb (any_na r)) t.

Definition is_upper (c : ascii) : bool :=
  let n := nat_of_ascii c in (65 <=? n)%nat && (n <=? 90)%nat.

Definition is_lower (c : ascii) : bool :=
  let n := nat_of_ascii c in (97 <=? n)%nat && (n <=? 122)%nat.

Definition to_upper (c : ascii) : ascii :=
  if is_lower c then ascii_of_nat (nat_of_ascii c - 32) else c.

Definition to_lower (c : ascii) : ascii :=
  if is_upper c then ascii_of_nat (nat_of_ascii c + 32) else c.

(** Python's [str.title]: a cased character is upper-cased when the character
    before it is not cased, and lower-cased otherwise. *)
Fixpoint title_from (prev_cased : bool) (s : string) : string :=
  match s with
  | EmptyString => EmptyString
  | String c s' =>
      let cased := is_upper c || is_lower c in
      String (if prev_cased then to_lower c else to_upper c)
             (title_from cased s')
  end.

Definition title (s : string) : string := title_from false s.

(** [Series.replace(old, new)] on one value of a string column. *)
Definition replace (old new v : string) : string :=
  if (v =? old)%string then new else v.

Definition set_spc_common (f : string -> string) (r : RawRow) : RawRow :=
  mkRaw (option_map f (raw_spc_common r)) (raw_boroname r) (raw_health r)
        (raw_steward r) (raw_count_tree_id r).

Definition set_steward (f : string -> string) (r : RawRow) : RawRow :=
  mkRaw (raw_spc_common r) (raw_boroname r) (raw_health r)
        (option_map f (raw_steward r)) (raw_count_tree_id r).

(** Line 31. *)
Definition replace_schubert : string -> string :=
  replace "'Schubert' Chokecherry" "Schubert Chokecherry".

(** Lines 30-31 on one species name. *)
Definition normalize_species (s : string) : string :=
  replace_schubert (title s).

(** Lines 32-35 on one steward value: four replacements in a chain. *)
Definition normalize_steward (s : string) : string :=
  replace "4orMore" "4+"
    (replace "3or4" "3-4"
       (replace "1or2" "1-2"
          (replace "None" "0" s))).

(** Lines 29-35: the value of [nyctrees] once tidying is done. *)
Definition tidy (fetched : list RawRow) : list RawRow :=
  let t := dropna fetched in
  let t := map (set_spc_common title) t in
  let t := map (set_spc_common replace_schubert) t in
  map (set_steward normalize_steward) t.

(** Reading a frame without missing values as a list of full rows. *)
Definition to_row (r : RawRow) : option Row :=
  match raw_spc_common r, raw_boroname r, raw_health r, raw_steward r,
        raw_count_tree_id r with
  | Some s, Some b, Some h, Some w, Some c => Some (mkRow s b h w c)
  | _, _, _, _, _ => None
  end.

Fixpoint to_rows (t : list RawRow) : list Row :=
  match t with
  | [] => []
  | r :: t' =>
      match to_row r with
      | Some x => x :: to_rows t'
      | None => to_rows t'
      end
  end.

Definition load (fetched : list RawRow) : list Row := to_rows (tidy fetched).

(** ** Frame operations shared by the two callbacks *)

(** The boolean mask of lines 80-81 and 112-113; indexing with it builds a
    new frame. *)
Definition select (borough species : string) (t : list Row) : list Row :=
  filter (fun r => (boroname r =? borough)%string
                   && (spc_common r =? species)%string) t.

Fixpoint insert_key (k : string) (l : list string) : list string :=
  match l with
  | [] => [k]
  | x :: l' =>
      match String_as_OT.compare k x with
      | Lt => k :: l
      | Eq => l
      | Gt => x :: insert_key k l'
      end
  end.

(** The order on labels: Python's order on strings. *)
Definition slt (a b : string) : Prop := String_as_OT.compare a b = Lt.

(** The group keys of a [groupby], and the labels of a [pivot]: the distinct
    values in increasing order. *)
Definition sorted_unique (l : list string) : list string :=
  fold_right insert_key [] l.

Definition group_sum (key : Row -> string) (k : string) (df : list Row) : Z :=
  Zsum (map count_tree_id (filter (fun r => (key r =? k)%string) df)).

(** [df.groupby(key).sum()['count_tree_id']] *)
Definition groupby_sum (key : Row -> string) (df : list Row)
  : list (string * Z) :=
  map (fun k => (k, group_sum key k df)) (sorted_unique (map key df)).

(** Python's [sum(df['count_tree_id'])]. *)
Definition total (df : list Row) : Z := Zsum (map count_tree_id df).

(** A frame whose index labels matter: label and row, in row order. *)
Definition Frame (A : Type) : Type := list (Z * A).

(** [reset_index()]: a fresh index 0, 1, 2, ... *)
Definition reset_index {A : Type} (rows : list A) : Frame A :=
  combine (map Z.of_nat (seq 0 (List.length rows))) rows.

(** [frame.loc[label] = row]: overwrites the row that carries the label, and
    appends a row with that label when there is none. *)
Fixpoint loc_set {A : Type} (label : Z) (row : A) (f : Frame A) : Frame A :=
  match f with
  | [] => [(label, row)]
  | (l, x) :: f' =>
      if l =? label then (l, row) :: f' else (l, x) :: loc_set label row f'
  end.

(** ** First view: pieces of [health_prop] *)

(** Line 83 without the final [reset_index]. *)
Definition proportions (df : list Row) : list (string * float2) :=
  map (fun kc => (fst kc, div_round2 (snd kc) (total df)))
      (groupby_sum health df).

(** [all(i != health_prop['health'])] *)
Definition all_ne (i : string) (f : Frame (string * float2)) : bool :=
  forallb (fun row => negb (i =? fst (snd row))%string) f.

(** One turn of the loop of lines 85-87. *)
Definition fill_step (f : Frame (string * float2)) (i : string)
  : Frame (string * float2) :=
  if all_ne i f then loc_set 2 (i, Fin 0) f else f.

(** [pd.Categorical(values, categories)] on one value: a value outside the
    categories becomes missing. *)
Definition categorical (categories : list string) (v : string)
  : option string :=
  if existsb (String.eqb v) categories then Some v else None.

Fixpoint index_of (v : string) (l : list string) : nat :=
  match l with
  | [] => O
  | x :: l' => if (v =? x)%string then O else S (index_of v l')
  end.

(** Sort key of a categorical value: its category's position, missing last. *)
Definition category_code (categories : list string) (v : option string)
  : nat :=
  match v with
  | Some s => index_of s categories
  | None => List.length categories
  end.

Fixpoint insert_by {A : Type} (code : A -> nat) (x : A) (l : list A)
  : list A :=
  match l with
  | [] => [x]
  | y :: l' =>
      if (code x <=? code y)%nat then x :: l else y :: insert_by code x l'
  end.

(** [sort_values]: rows in increasing order of their code, equal codes in
    their former order. *)
Definition sort_values {A : Type} (code : A -> nat) (f : list A) : list A :=
  fold_right (insert_by code) [] f.

Definition health_categories : list string := ["Good"; "Fair"; "Poor"].

(** What the first callback returns: the bar's [x], [y] and colours and the
    layout's title (the axis settings are constants). *)
Record HealthFigure : Type := mkHealthFigure {
  hf_x : list (option string);
  hf_y : list float2;
  hf_marker_color : list string;
  hf_title : string
}.

(** ** Second view: pieces of [stewardship] *)

(** [pd.merge(df, totals, on='steward')]: an inner join that keeps the order
    of the left rows; the pair is the row (its count is [count_tree_id_x])
    and [count_tree_id_y]. *)
Definition merge (df : list Row) (totals : list (string * Z))
  : list (Row * Z) :=
  flat_map (fun r =>
              map (fun kt => (r, snd kt))
                  (filter (fun kt => (fst kt =? steward r)%string) totals))
           df.

(** A row of the merged frame once the column [steward_p] is set. *)
Definition MergedP : Type := (Row * Z * float2)%type.

Definition m_row (m : MergedP) : Row := fst (fst m).
Definition count_tree_id_x (m : MergedP) : Z := count_tree_id (m_row m).
Definition count_tree_id_y (m : MergedP) : Z := snd (fst m).
Definition steward_p (m : MergedP) : float2 := snd m.

(** Line 119. *)
Definition with_steward_p (f : list (Row * Z)) : list MergedP :=
  map (fun m => (m, div_round2 (count_tree_id (fst m)) (snd m))) f.

(** What a callback can raise: [KeyError] from a row lookup by label,
    [ValueError] from [pivot]; [TypeError] stands for a reference behind
    which there is no frame of the expected kind. *)
Inductive Exn : Type :=
| KeyError (label : nat)
| ValueError
| TypeError.

(** A pivoted frame: row labels, column labels and the cells row by row. *)
Record Pivot (V : Type) : Type := mkPivot {
  pv_index : list string;
  pv_columns : list string;
  pv_cells : list (list V)
}.
Arguments mkPivot {V} _ _ _.
Arguments pv_index {V} _.
Arguments pv_columns {V} _.
Arguments pv_cells {V} _.

Definition same_pair (a b : string * string) : bool :=
  (fst a =? fst b)%string && (snd a =? snd b)%string.

Fixpoint has_duplicates (l : list (string * string)) : bool :=
  match l with
  | [] => false
  | x :: l' => existsb (same_pair x) l' || has_duplicates l'
  end.

Definition pivot_cell {V : Type} (nan : V) (values : MergedP -> V)
    (rows : list MergedP) (h s : string) : V :=
  match find (fun m => (health (m_row m) =? h)%string
                       && (steward (m_row m) =? s)%string) rows with
  | Some m => values m
  | None => nan
  end.

(** [frame.pivot(columns='steward', index='health', values=...)]: raises
    when two rows carry the same (health, steward) pair; a pair no row
    carries gives a missing cell. *)
Definition pivot {V : Type} (nan : V) (values : MergedP -> V)
    (rows : list MergedP) : Exn + Pivot V :=
  if has_duplicates (map (fun m => (health (m_row m), steward (m_row m))) rows)
  then inl ValueError
  else
    let index := sorted_unique (map (fun m => health (m_row m)) rows) in
    let columns := sorted_unique (map (fun m => steward (m_row m)) rows) in
    inr (mkPivot index columns
           (map (fun h => map (pivot_cell nan values rows h) columns) index)).

Fixpoint position (v : string) (l : list string) : option nat :=
  match l with
  | [] => None
  | x :: l' =>
      if (v =? x)%string then Some O else option_map S (position v l')
  end.

(** [.reindex(columns=categories, fill_value=...)]: the listed columns in the
    listed order; a listed column the frame lacks is filled. *)
Definition reindex_columns {V : Type} (categories : list string)
    (fill_value : V) (p : Pivot V) : Pivot V :=
  mkPivot (pv_index p) categories
    (map (fun row =>
            map (fun c =>
                   match position c (pv_columns p) with
                   | Some j => nth j row fill_value
                   | None => fill_value
                   end) categories)
         (pv_cells p)).

(** [.reset_index()] on a pivoted frame: [health] becomes a column and the
    rows are labelled 0, 1, 2, ...; the row's label is its position. *)
Definition pivot_reset_index {V : Type} (p : Pivot V)
  : list (string * list V) :=
  combine (pv_index p) (pv_cells p).

Definition fillna {V : Type} (isnan : V -> bool) (zero : V)
    (f : list (string * list V)) : list (string * list V) :=
  map (fun row => (fst row, map (fun v => if isnan v then zero else v)
                                (snd row))) f.

Definition categories : list string := ["0"; "1-2"; "3-4"; "4+"].

Definition is_nan (v : float2) : bool :=
  match v with NaN => true | _ => false end.

(** Lines 123-125: the raw counts, a missing count being [None]. *)
Definition hover_frame (rows : list MergedP)
  : Exn + list (string * list (option Z)) :=
  match pivot None (fun m => Some (count_tree_id_x m)) rows with
  | inl e => inl e
  | inr p =>
      inr (fillna isna (Some 0)
             (pivot_reset_index (reindex_columns categories (Some 0) p)))
  end.

(** Lines 127-129: the proportions within each steward bucket. *)
Definition steward_health_frame (rows : list MergedP)
  : Exn + list (string * list float2) :=
  match pivot NaN steward_p rows with
  | inl e => inl e
  | inr p =>
      inr (fillna is_nan (Fin 0)
             (pivot_reset_index (reindex_columns categories (Fin 0) p)))
  end.

(** [frame.loc[label]] on a frame labelled 0, 1, 2, ... *)
Definition loc {A : Type} (f : list A) (label : nat) : Exn + A :=
  match nth_error f label with
  | Some row => inr row
  | None => inl (KeyError label)
  end.

Record Trace : Type := mkTrace {
  tr_x : list string;
  tr_y : list float2;
  tr_text : list (option Z);
  tr_marker_color : string;
  tr_name : string
}.

Record StewardFigure : Type := mkStewardFigure {
  sf_data : list Trace;
  sf_title : string
}.

(** ** The store and the callback monad *)

(** The frame objects a callback can hold a reference to.  The module-level
    table and the result of indexing it are [OTable]s; [health_prop]'s frame
    is an [OProps] until line 89 makes its [health] column categorical;
    [steward_health] is an [OMerged] until line 119 adds its column. *)
Inductive Obj : Type :=
| OTable (rows : list Row)
| OProps (f : Frame (string * float2))
| OPropsCat (f : Frame (option string * float2))
| OMerged (f : list (Row * Z))
| OMergedP (f : list MergedP).

(** The store: an object's reference is its position. *)
Definition Store : Type := list Obj.

(** A computation may raise, and the store it leaves behind is kept either
    way. *)
Definition M (A : Type) : Type := Store -> (Exn + A) * Store.

Definition ret {A : Type} (x : A) : M A := fun st => (inr x, st).

Definition bind {A B : Type} (m : M A) (k : A -> M B) : M B :=
  fun st =>
    match m st with
    | (inl e, st') => (inl e, st')
    | (inr x, st') => k x st'
    end.

Definition lift {A : Type} (r : Exn + A) : M A := fun st => (r, st).

Notation "x <- m ;; k" := (bind m (fun x => k))
  (at level 61, m at next level, right associativity).
Notation "m ;; k" := (bind m (fun _ => k))
  (at level 61, right associativity).

Fixpoint update (r : nat) (o : Obj) (st : Store) : Store :=
  match st, r with
  | [], _ => []
  | _ :: st', O => o :: st'
  | x :: st', S r' => x :: update r' o st'
  end.

(** A fresh object. *)
Definition new (o : Obj) : M nat :=
  fun st => (inr (List.length st), st ++ [o]).

Definition deref (r : nat) : M Obj :=
  fun st =>
    match nth_error st r with
    | Some o => (inr o, st)
    | None => (inl TypeError, st)
    end.

(** An in-place update of the object behind a reference. *)
Definition assign (r : nat) (o : Obj) : M unit :=
  fun st => (inr tt, update r o st).

Definition read_table (r : nat) : M (list Row) :=
  o <- deref r ;;
  match o with OTable t => ret t | _ => lift (inl TypeError) end.

Definition read_props (r : nat) : M (Frame (string * float2)) :=
  o <- deref r ;;
  match o with OProps f => ret f | _ => lift (inl TypeError) end.

Definition read_props_cat (r : nat) : M (Frame (option string * float2)) :=
  o <- deref r ;;
  match o with OPropsCat f => ret f | _ => lift (inl TypeError) end.

Definition read_merged (r : nat) : M (list (Row * Z)) :=
  o <- deref r ;;
  match o with OMerged f => ret f | _ => lift (inl TypeError) end.

Definition read_merged_p (r : nat) : M (list MergedP) :=
  o <- deref r ;;
  match o with OMergedP f => ret f | _ => lift (inl TypeError) end.

Fixpoint for_each {A : Type} (l : list A) (body : A -> M unit) : M unit :=
  match l with
  | [] => ret tt
  | x :: l' => body x ;; for_each l' body
  end.

(** The module-level variable [nyctrees]: the first object of the store. *)
Definition nyctrees : nat := O.

(** The store when start-up is over: the loaded table and nothing else. *)
Definition startup (table : list Row) : Store := [OTable table].

(** ** The callbacks *)

Definition to_categorical (f : Frame (string * float2))
  : Frame (option string * float2) :=
  map (fun r => (fst r, (categorical health_categories (fst (snd r)),
                         snd (snd r)))) f.

Definition health_code (r : Z * (option string * float2)) : nat :=
  category_code health_categories (fst (snd r)).

Definition health_title (borough species : string) : string :=
  ("Health of " ++ species ++ " Trees in " ++ borough)%string.

(** Lines 79-105. *)
Definition health_prop (borough species : string) : M HealthFigure :=
  t <- read_table nyctrees ;;
  df <- new (OTable (select borough species t)) ;;
  rows <- read_table df ;;
  hp <- new (OProps (reset_index (proportions rows))) ;;
  for_each ["Fair"; "Good"; "Poor"]
    (fun i =>
       f <- read_props hp ;;
       if all_ne i f then assign hp (OProps (loc_set 2 (i, Fin 0) f))
       else ret tt) ;;
  f <- read_props hp ;;
  assign hp (OPropsCat (to_categorical f)) ;;
  f <- read_props_cat hp ;;
  let sorted := sort_values health_code f in
  ret (mkHealthFigure
         (map (fun r => fst (snd r)) sorted)
         (map (fun r => snd (snd r)) sorted)
         ["#109618"; "#FFA15A"; "#990099"]
         (health_title borough species)).

Definition steward_title (borough species : string) : string :=
  ("Health of " ++ species ++ " Trees in " ++ borough
   ++ " by Stewardship")%string.

(** Lines 111-161. *)
Definition stewardship (borough species : string) : M StewardFigure :=
  t <- read_table nyctrees ;;
  df <- new (OTable (select borough species t)) ;;
  rows <- read_table df ;;
  sh <- new (OMerged (merge rows (groupby_sum steward rows))) ;;
  m <- read_merged sh ;;
  assign sh (OMergedP (with_steward_p m)) ;;
  mp <- read_merged_p sh ;;
  hover <- lift (hover_frame mp) ;;
  steward_health <- lift (steward_health_frame mp) ;;
  y1 <- lift (loc steward_health 1) ;;
  text1 <- lift (loc hover 1) ;;
  y2 <- lift (loc steward_health 0) ;;
  text2 <- lift (loc hover 0) ;;
  y3 <- lift (loc steward_health 2) ;;
  text3 <- lift (loc hover 2) ;;
  ret (mkStewardFigure
         [mkTrace categories (snd y1) (snd text1) "#109618" "Good";
          mkTrace categories (snd y2) (snd text2) "#FFA15A" "Fair";
          mkTrace categories (snd y3) (snd text3) "#990099" "Poor"]
         (steward_title borough species)).

(** A callback's result on the store start-up leaves. *)
Definition run {A : Type} (m : M A) (table : list Row) : Exn + A :=
  fst (m (startup table)).

(** ** Functional readings of the callbacks

    What each callback computes from the rows it selects, without the store;
    [health_prop_run] and [stewardship_run] relate them to the callbacks. *)

Definition fill_missing (f : Frame (string * float2))
  : Frame (string * float2) :=
  fold_left fill_step ["Fair"; "Good"; "Poor"] f.

(** The frame [health_prop] names once line 89 is done, from the series of
    line 83. *)
Definition health_frame_of (p : list (string * float2))
  : Frame (option string * float2) :=
  to_categorical (fill_missing (reset_index p)).

Definition health_frame (df : list Row) : Frame (option string * float2) :=
  health_frame_of (proportions df).

(** The bars of the first view, left to right: health state and height. *)
Definition bars_of (p : list (string * float2))
  : list (option string * float2) :=
  map snd (sort_values health_code (health_frame_of p)).

Definition health_figure (borough species : string) (df : list Row)
  : HealthFigure :=
  let sorted := sort_values health_code (health_frame df) in
  mkHealthFigure
    (map (fun r => fst (snd r)) sorted)
    (map (fun r => snd (snd r)) sorted)
    ["#109618"; "#FFA15A"; "#990099"]
    (health_title borough species).

Definition merged_p (df : list Row) : list MergedP :=
  with_steward_p (merge df (groupby_sum steward df)).

Definition ebind {A B : Type} (r : Exn + A) (k : A -> Exn + B) : Exn + B :=
  match r with
  | inl e => inl e
  | inr x => k x
  end.

Definition steward_figure (borough species : string) (df : list Row)
  : Exn + StewardFigure :=
  ebind (hover_frame (merged_p df)) (fun hover =>
  ebind (steward_health_frame (merged_p df)) (fun steward_health =>
  ebind (loc steward_health 1) (fun y1 =>
  ebind (loc hover 1) (fun text1 =>
  ebind (loc steward_health 0) (fun y2 =>
  ebind (loc hover 0) (fun text2 =>
  ebind (loc steward_health 2) (fun y3 =>
  ebind (loc hover 2) (fun text3 =>
  inr (mkStewardFigure
         [mkTrace categories (snd y1) (snd text1) "#109618" "Good";
          mkTrace categories (snd y2) (snd text2) "#FFA15A" "Fair";
          mkTrace categories (snd y3) (snd text3) "#990099" "Poor"]
         (steward_title borough species)))))))))).

(** ** The data model's invariants, as predicates on a frame *)

(** Every health state is one of Good, Fair, Poor. *)
Definition valid_health (df : list Row) : bool :=
  forallb (fun r => existsb (String.eqb (health r)) health_categories) df.

(** No two rows carry the same (health, steward) pair. *)
Definition unique_cells (df : list Row) : bool :=
  negb (has_duplicates (map (fun r => (health r, steward r)) df)).

Definition same_key (a b : Row) : bool :=
  (spc_common a =? spc_common b)%string && (boroname a =? boroname b)%string
  && (health a =? health b)%string && (steward a =? steward b)%string.

Fixpoint has_duplicate_keys (t : list Row) : bool :=
  match t with
  | [] => false
  | r :: t' => existsb (same_key r) t' || has_duplicate_keys t'
  end.

(** The table invariant: health states among the three, and at most one row
    per (species, borough, health, steward). *)
Definition wf_table (t : list Row) : bool :=
  valid_health t && negb (has_duplicate_keys t).

(** Whether a label occurs in a column. *)
Definition present (l : list string) (k : string) : bool :=
  existsb (String.eqb k) l.

(** The sum, in hundredths, of a list of finite floats. *)
Fixpoint finite_sum (ys : list float2) : option Z :=
  match ys with
  | [] => Some 0
  | Fin h :: ys' => option_map (Z.add h) (finite_sum ys')
  | _ :: _ => None
  end.

(** A list of proportions sums to 1.0 up to the rounding of at most three
    of them: finite values whose hundredths add up to 99, 100 or 101. *)
Definition sums_to_one (ys : list float2) : Prop :=
  exists s, finite_sum ys = Some s /\ 99 <= s <= 101.

(** Column [j] of a frame with a [health] column. *)
Definition column {V : Type} (d : V) (j : nat) (f : list (string * list V))
  : list V :=
  map (fun row => nth j (snd row) d) f.

(** The cell of a frame at a health state and a column. *)
Definition cell_at {V : Type} (f : list (string * list V)) (h : string)
    (j : nat) : option V :=
  match find (fun row => (fst row =? h)%string) f with
  | Some row => nth_error (snd row) j
  | None => None
  end.

(** ** The callbacks as the server invokes them *)

(** A selection change makes the server invoke a callback with the selected
    values; over the life of the process it invokes them any number of times,
    in any order. *)
Inductive Call : Type :=
| CallHealthProp (borough species : string)
| CallStewardship (borough species : string).

Definition invoke (c : Call) (st : Store) : Store :=
  match c with
  | CallHealthProp b s => snd (health_prop b s st)
  | CallStewardship b s => snd (stewardship b s st)
  end.

Definition serve (calls : list Call) (st : Store) : Store :=
  fold_left (fun st c => invoke c st) calls st.

(** ** Sample tables *)

Definition sample_table : list Row :=
  [ mkRow "Red Maple" "Bronx" "Good" "0" 30;
    mkRow "Red Maple" "Bronx" "Fair" "1-2" 10;
    mkRow "Red Maple" "Bronx" "Poor" "0" 3;
    mkRow "Pin Oak" "Bronx" "Good" "0" 20;
    mkRow "Pin Oak" "Bronx" "Good" "3-4" 10;
    mkRow "Pin Oak" "Bronx" "Fair" "0" 10;
    mkRow "Ginkgo" "Queens" "Good" "3-4" 5 ].

(** A table whose only row counts no tree. *)
Definition zero_count_table : list Row :=
  [ mkRow "Ginkgo" "Queens" "Good" "0" 0 ].

Definition sample_fetched : list RawRow :=
  [ mkRaw (Some "'Schubert' chokecherry") (Some "Bronx") (Some "Good")
          (Some "None") (Some 4);
    mkRaw (Some "red maple") (Some "Bronx") None (Some "1or2") (Some 2);
    mkRaw None (Some "Queens") (Some "Fair") (Some "3or4") (Some 1);
    mkRaw (Some "ginkgo") (Some "Queens") (Some "Poor") (Some "4orMore")
          (Some 7) ].

(** ** Quantities the statements about the second view speak of *)

(** The total count of the steward bucket a row lies in. *)
Definition bucket_total (df : list Row) (r : Row) : Z :=
  group_sum steward (steward r) df.

(** The first row that carries a (health, steward) pair. *)
Definition find_cell (df : list Row) (h s : string) : option Row :=
  find (fun r => (health r =? h)%string && (steward r =? s)%string) df.

(** The count of a (health, steward) pair among the rows. *)
Definition cell_count (df : list Row) (h c : string) : Z :=
  group_sum health h (filter (fun r => (steward r =? c)%string) df).

(** A cell of a pivoted frame of the merged rows after [fillna]. *)
Definition filled {V : Type} (nan zero : V) (isnan : V -> bool)
    (values : MergedP -> V) (df : list Row) (h c : string) : V :=
  let v := pivot_cell nan values (merged_p df) h c in
  if isnan v then zero else v.

(** ** The tidying steps on one row *)

(** Lines 30-35 on a row that may miss fields. *)
Definition tidy_raw (r : RawRow) : RawRow :=
  set_steward normalize_steward
    (set_spc_common replace_schubert (set_spc_common title r)).

(** Lines 30-35 on a full row. *)
Definition tidy_row (r : Row) : Row :=
  mkRow (normalize_species (spc_common r)) (boroname r) (health r)
        (normalize_steward (steward r)) (count_tree_id r).

(** ** Dropdown selections and their defaults (lines 38-61) *)

(** [np.sort(nyctrees['boroname'].unique())] *)
Definition borough_options (t : list Row) : list string :=
  sorted_unique (map boroname t).

(** [np.sort(nyctrees['spc_common'].unique())] *)
Definition species_options (t : list Row) : list string :=
  sorted_unique (map spc_common t).

(** What building the layout can raise. *)
Inductive StartupExn : Type :=
| IndexError.

(** [options[0]] *)
Definition first_option (options : list string) : StartupExn + string :=
  match options with
  | [] => inl IndexError
  | x :: _ => inr x
  end.

(** A [dcc.Dropdown]: its id, its options (label and value) and the value
    selected at first. *)
Record Dropdown : Type := mkDropdown {
  dd_id : string;
  dd_options : list (string * string);
  dd_value : string
}.

(** [[{'label': i, 'value': i} for i in options]] *)
Definition dropdown_items (options : list string) : list (string * string) :=
  map (fun i => (i, i)) options.

(** The two dropdowns of the layout (lines 53-61), the borough one first. *)
Definition layout_dropdowns (t : list Row)
  : StartupExn + (Dropdown * Dropdown) :=
  match first_option (borough_options t) with
  | inl e => inl e
  | inr b =>
      match first_option (species_options t) with
      | inl e => inl e
      | inr s =>
          inr (mkDropdown "borough_selection"
                 (dropdown_items (borough_options t)) b,
               mkDropdown "species_selection"
                 (dropdown_items (species_options t)) s)
      end
  end.

(** ** Quantities the further statements speak of *)

(** A label is at most another one. *)
Definition sle (a b : string) : Prop := a = b \/ slt a b.

(** Every count is non-negative. *)
Definition nonneg_counts (df : list Row) : bool :=
  forallb (fun r => 0 <=? count_tree_id r) df.

(** Every steward value is one of the four buckets. *)
Definition valid_steward (df : list Row) : bool :=
  forallb (fun r => existsb (String.eqb (steward r)) categories) df.

(** A proportion between 0 and 1. *)
Definition unit_interval (y : float2) : Prop :=
  exists v, y = Fin v /\ 0 <= v <= 100.

(** The height of a health state's bar in the first view when no row is
    lost: the rounded share of the state's count, zero without a row. *)
Definition share (df : list Row) (h : string) : float2 :=
  if present (map health df) h
  then div_round2 (group_sum health h df) (total df)
  else Fin 0.

(** A raw count of the hover text, a missing one counting as zero. *)
Definition hover_count (v : option Z) : Z :=
  match v with
  | Some c => c
  | None => 0
  end.

(** [y] is a value [round(c / d, 2)] can take: a hundredth nearest to the
    quotient, either one when the quotient lies halfway between two, or the
    non-finite quotient by zero. *)
Definition rounds_to (c d : Z) (y : float2) : Prop :=
  match y with
  | Fin v => d <> 0 /\ 2 * Z.abs (v * d - 100 * c) <= Z.abs d
  | PosInf => d = 0 /\ 0 < c
  | NegInf => d = 0 /\ c < 0
  | NaN => d = 0 /\ c = 0
  end.

(** [y] is a height the bar of health state [h] can have in the first view
    when no row is lost: the rounded share of the state's count, zero
    without a row. *)
Definition bar_height (df : list Row) (h : string) (y : float2) : Prop :=
  if present (map health df) h
  then rounds_to (group_sum health h df) (total df) y
  else y = Fin 0.

(** The heights over bucket [j] of the traces of a figure. *)
Definition bars_over (j : nat) (fig : StewardFigure) : list float2 :=
  map (fun tr => nth j (tr_y tr) NaN) (sf_data fig).

(** * Properties *)

(** ** Rounding *)

Lemma round_half_even_pos_error (p q : Z) :
  0 < q -> 2 * Z.abs (round_half_even_pos p q * q - p) <= q.
Proof.
  intros Hq. unfold round_half_even_pos.
  pose proof (Z.div_mod p q ltac:(lia)) as Hdm.
  pose proof (Z.mod_pos_bound p q Hq) as Hr.
  destruct (Z.ltb_spec (2 * (p mod q)) q);
    [| destruct (Z.ltb_spec q (2 * (p mod q))); [| destruct (Z.even (p / q))]];
    nia.
Qed.

Lemma round_half_even_error (p q : Z) :
  q <> 0 -> 2 * Z.abs (round_half_even p q * q - p) <= Z.abs q.
Proof.
  intros Hq. unfold round_half_even.
  destruct (Z.ltb_spec q 0).
  - pose proof (round_half_even_pos_error (- p) (- q) ltac:(lia)). nia.
  - pose proof (round_half_even_pos_error p q ltac:(lia)). nia.
Qed.

Lemma round_half_even_zero (q : Z) : q <> 0 -> round_half_even 0 q = 0.
Proof.
  intros Hq. pose proof (round_half_even_error 0 q Hq). nia.
Qed.

Lemma div_round2_fin (x y : Z) :
  y <> 0 -> div_round2 x y = Fin (round_half_even (100 * x) y).
Proof.
  intros Hy. unfold div_round2.
  destruct (Z.eqb_spec y 0); [contradiction | reflexivity].
Qed.

(** The hundredths of a list of rounded quotients by [d] are off their exact
    sum by at most half a hundredth each. *)
Lemma rounded_sum_error (d : Z) (cs : list Z) :
  d <> 0 ->
  2 * Z.abs (Zsum (map (fun c => round_half_even (100 * c) d) cs) * d
             - 100 * Zsum cs)
  <= Z.of_nat (List.length cs) * Z.abs d.
Proof.
  intros Hd. induction cs as [| c cs IH].
  - simpl. lia.
  - cbn [map Zsum fold_right List.length].
    fold (Zsum (map (fun c => round_half_even (100 * c) d) cs)).
    fold (Zsum cs).
    pose proof (round_half_even_error (100 * c) d Hd). lia.
Qed.

Lemma rounded_sum_near_100 (d : Z) (cs : list Z) :
  d <> 0 -> Zsum cs = d -> (List.length cs <= 3)%nat ->
  99 <= Zsum (map (fun c => round_half_even (100 * c) d) cs) <= 101.
Proof.
  intros Hd Hs Hn. pose proof (rounded_sum_error d cs Hd) as H.
  rewrite Hs in H. nia.
Qed.

(** ** Group keys: sorted and without repetition *)

Lemma compare_Eq_eq (a b : string) : String_as_OT.compare a b = Eq -> a = b.
Proof.
  intros H. destruct (String_as_OT.compare_spec a b); congruence.
Qed.

Lemma compare_Gt_lt (a b : string) : String_as_OT.compare a b = Gt -> slt b a.
Proof.
  intros H. destruct (String_as_OT.compare_spec a b); congruence.
Qed.

Lemma slt_irrefl (a : string) : ~ slt a a.
Proof. exact (StrictOrder_Irreflexive a). Qed.

Lemma slt_trans (a b c : string) : slt a b -> slt b c -> slt a c.
Proof. exact (StrictOrder_Transitive a b c). Qed.

Lemma insert_key_In (k x : string) (l : list string) :
  In x (insert_key k l) <-> x = k \/ In x l.
Proof.
  induction l as [| y l IH]; simpl.
  - intuition.
  - destruct (String_as_OT.compare k y) eqn:E; simpl.
    + apply compare_Eq_eq in E. subst. intuition.
    + intuition.
    + rewrite IH. intuition.
Qed.

Lemma insert_key_sorted (k : string) (l : list string) :
  StronglySorted slt l -> StronglySorted slt (insert_key k l).
Proof.
  induction 1 as [| y l Hs IH Hall]; simpl.
  - repeat constructor.
  - destruct (String_as_OT.compare k y) eqn:E.
    + constructor; assumption.
    + constructor; [constructor; assumption |].
      constructor; [exact E |].
      eapply Forall_impl; [| exact Hall].
      intros z Hz. exact (slt_trans _ _ _ E Hz).
    + constructor; [exact IH |].
      apply Forall_forall. intros z Hz.
      apply insert_key_In in Hz. destruct Hz as [-> | Hz].
      * now apply compare_Gt_lt.
      * rewrite Forall_forall in Hall. now apply Hall.
Qed.

Lemma sorted_unique_In (x : string) (l : list string) :
  In x (sorted_unique l) <-> In x l.
Proof.
  induction l as [| y l IH]; simpl; [reflexivity |].
  rewrite insert_key_In, IH. intuition.
Qed.

Lemma sorted_unique_sorted (l : list string) :
  StronglySorted slt (sorted_unique l).
Proof.
  induction l as [| y l IH]; simpl.
  - constructor.
  - now apply insert_key_sorted.
Qed.

Lemma sorted_NoDup (l : list string) : StronglySorted slt l -> NoDup l.
Proof.
  induction 1 as [| y l Hs IH Hall]; constructor; [| exact IH].
  intros Hin. rewrite Forall_forall in Hall.
  exact (slt_irrefl y (Hall y Hin)).
Qed.

(** Two increasing lists with the same elements are the same list. *)
Lemma sorted_same_elements (l1 l2 : list string) :
  StronglySorted slt l1 -> StronglySorted slt l2 ->
  (forall x, In x l1 <-> In x l2) -> l1 = l2.
Proof.
  intros H1. revert l2.
  induction H1 as [| a l1 Hs1 IH Ha]; intros l2 H2 Hsame.
  - destruct l2 as [| b l2]; [reflexivity |].
    exfalso. apply (Hsame b). now left.
  - destruct H2 as [| b l2 Hs2 Hb].
    + exfalso. apply (Hsame a). now left.
    + rewrite Forall_forall in Ha, Hb.
      assert (a = b) as ->.
      { destruct (proj1 (Hsame a) (or_introl eq_refl)) as [E | Hin];
          [now symmetry |].
        destruct (proj2 (Hsame b) (or_introl eq_refl)) as [E | Hin'];
          [exact E |].
        exfalso. apply (slt_irrefl a).
        exact (slt_trans _ _ _ (Ha b Hin') (Hb a Hin)). }
      f_equal. apply IH; [exact Hs2 |].
      intros x; split; intros Hx.
      * destruct (proj1 (Hsame x) (or_intror Hx)) as [E | Hin]; [| exact Hin].
        subst x. exfalso. exact (slt_irrefl b (Ha b Hx)).
      * destruct (proj2 (Hsame x) (or_intror Hx)) as [E | Hin]; [| exact Hin].
        subst x. exfalso. exact (slt_irrefl b (Hb b Hx)).
Qed.

Lemma filter_sorted (f : string -> bool) (l : list string) :
  StronglySorted slt l -> StronglySorted slt (filter f l).
Proof.
  induction 1 as [| a l Hs IH Ha]; simpl; [constructor |].
  destruct (f a); [| exact IH].
  constructor; [exact IH |].
  apply Forall_forall. intros x Hx. apply filter_In in Hx.
  rewrite Forall_forall in Ha. now apply Ha.
Qed.

Lemma present_In (l : list string) (k : string) :
  present l k = true <-> In k l.
Proof.
  unfold present. rewrite existsb_exists. split.
  - intros [x [Hx E]]. apply String.eqb_eq in E. now subst.
  - intros H. exists k. split; [exact H | apply String.eqb_refl].
Qed.

(** The keys of a column whose values all lie in an increasing list [u] are
    the values of [u] that occur. *)
Lemma sorted_unique_within (u l : list string) :
  StronglySorted slt u -> (forall x, In x l -> In x u) ->
  sorted_unique l = filter (present l) u.
Proof.
  intros Hu Hsub. apply sorted_same_elements.
  - apply sorted_unique_sorted.
  - now apply filter_sorted.
  - intros x. rewrite sorted_unique_In, filter_In, present_In. intuition.
Qed.

Lemma health_states_sorted : StronglySorted slt ["Fair"; "Good"; "Poor"].
Proof. repeat constructor. Qed.

(** ** Sums over groups *)

Lemma Zsum_app (l1 l2 : list Z) : Zsum (l1 ++ l2) = Zsum l1 + Zsum l2.
Proof.
  induction l1 as [| x l1 IH]; simpl; [reflexivity |].
  fold (Zsum (l1 ++ l2)). fold (Zsum l1). lia.
Qed.

Lemma Zsum_map_add {A : Type} (f g : A -> Z) (l : list A) :
  Zsum (map (fun k => f k + g k) l) = Zsum (map f l) + Zsum (map g l).
Proof.
  induction l as [| x l IH]; simpl; [reflexivity |].
  fold (Zsum (map (fun k => f k + g k) l)).
  fold (Zsum (map f l)). fold (Zsum (map g l)). lia.
Qed.

Lemma Zsum_map_ext {A : Type} (f g : A -> Z) (l : list A) :
  (forall x, In x l -> f x = g x) -> Zsum (map f l) = Zsum (map g l).
Proof.
  intros H. f_equal. apply map_ext_in. exact H.
Qed.

Lemma Zsum_indicator (a : string) (c : Z) (keys : list string) :
  NoDup keys -> In a keys ->
  Zsum (map (fun k => if (a =? k)%string then c else 0) keys) = c.
Proof.
  induction 1 as [| k keys Hk Hnd IH]; intros Hin; [destruct Hin |].
  cbn [map Zsum fold_right].
  fold (Zsum (map (fun k => if (a =? k)%string then c else 0) keys)).
  destruct (String.eqb_spec a k) as [-> | Hne].
  - rewrite (Zsum_map_ext _ (fun _ => 0)).
    + clear. induction keys; simpl; [lia | assumption].
    + intros x Hx. destruct (String.eqb_spec k x); [subst; contradiction |].
      reflexivity.
  - destruct Hin as [E | Hin]; [congruence |]. rewrite (IH Hin). lia.
Qed.

Lemma group_sum_cons (key : Row -> string) (k : string) (r : Row)
    (df : list Row) :
  group_sum key k (r :: df)
  = (if (key r =? k)%string then count_tree_id r else 0) + group_sum key k df.
Proof.
  unfold group_sum. cbn [filter].
  destruct (key r =? k)%string; reflexivity.
Qed.

(** The sums of the groups add up to the sum of the column. *)
Lemma group_sums_total (key : Row -> string) (keys : list string)
    (df : list Row) :
  NoDup keys -> (forall r, In r df -> In (key r) keys) ->
  Zsum (map (fun k => group_sum key k df) keys) = total df.
Proof.
  intros Hnd. induction df as [| r df IH]; intros Hcov.
  - unfold group_sum, total. simpl. clear.
    induction keys; simpl; [reflexivity | assumption].
  - rewrite (Zsum_map_ext _ (fun k =>
        (if (key r =? k)%string then count_tree_id r else 0)
        + group_sum key k df)) by (intros; apply group_sum_cons).
    rewrite Zsum_map_add, Zsum_indicator, IH.
    + reflexivity.
    + intros x Hx. apply Hcov. now right.
    + exact Hnd.
    + apply Hcov. now left.
Qed.

Lemma groupby_sum_total (key : Row -> string) (df : list Row) :
  Zsum (map snd (groupby_sum key df)) = total df.
Proof.
  unfold groupby_sum. rewrite map_map. cbn [snd].
  apply group_sums_total.
  - apply sorted_NoDup, sorted_unique_sorted.
  - intros r Hr. apply sorted_unique_In. now apply in_map.
Qed.

Lemma group_sum_absent (key : Row -> string) (k : string) (df : list Row) :
  present (map key df) k = false -> group_sum key k df = 0.
Proof.
  intros H. unfold group_sum.
  induction df as [| r df IH]; [reflexivity |].
  unfold present in H. cbn [map existsb] in H.
  apply orb_false_iff in H. destruct H as [H1 H2].
  cbn [filter]. rewrite String.eqb_sym, H1. now apply IH.
Qed.

(** ** Health states of a valid frame *)

Lemma valid_health_In (df : list Row) :
  valid_health df = true ->
  forall x, In x (map health df) -> In x ["Fair"; "Good"; "Poor"].
Proof.
  unfold valid_health. rewrite forallb_forall. intros H x Hx.
  apply in_map_iff in Hx. destruct Hx as [r [<- Hr]].
  specialize (H r Hr). apply (present_In health_categories) in H.
  simpl in H. simpl. intuition.
Qed.

Lemma health_keys (df : list Row) :
  valid_health df = true ->
  sorted_unique (map health df)
  = filter (present (map health df)) ["Fair"; "Good"; "Poor"].
Proof.
  intros H. apply sorted_unique_within.
  - exact health_states_sorted.
  - now apply valid_health_In.
Qed.

Lemma health_keys_length (df : list Row) :
  valid_health df = true ->
  (List.length (sorted_unique (map health df)) <= 3)%nat.
Proof.
  intros H. rewrite (health_keys df H).
  apply (filter_length_le (present (map health df)) ["Fair"; "Good"; "Poor"]).
Qed.

Lemma proportions_valid (df : list Row) :
  valid_health df = true -> total df <> 0 ->
  proportions df
  = map (fun k => (k, Fin (round_half_even (100 * group_sum health k df)
                                           (total df))))
        (filter (present (map health df)) ["Fair"; "Good"; "Poor"]).
Proof.
  intros Hv Ht. unfold proportions, groupby_sum.
  rewrite map_map, (health_keys df Hv).
  apply map_ext. intros k. cbn [fst snd]. now rewrite div_round2_fin.
Qed.

(** ** Running the callbacks on a store *)

Lemma nth_error_snoc (st : Store) (o : Obj) :
  nth_error (st ++ [o]) (List.length st) = Some o.
Proof.
  rewrite nth_error_app2 by lia. now rewrite Nat.sub_diag.
Qed.

Lemma update_snoc (st : Store) (o o' : Obj) :
  update (List.length st) o' (st ++ [o]) = (st ++ [o']).
Proof.
  induction st as [| x st IH]; simpl; [reflexivity | now rewrite IH].
Qed.

Lemma read_table_run (r : nat) (t : list Row) (st : Store) :
  nth_error st r = Some (OTable t) -> read_table r st = (inr t, st).
Proof.
  intros H. unfold read_table, bind, deref. now rewrite H.
Qed.

Lemma read_props_run (r : nat) (f : Frame (string * float2)) (st : Store) :
  nth_error st r = Some (OProps f) -> read_props r st = (inr f, st).
Proof.
  intros H. unfold read_props, bind, deref. now rewrite H.
Qed.

Lemma read_props_cat_run (r : nat) (f : Frame (option string * float2))
    (st : Store) :
  nth_error st r = Some (OPropsCat f) -> read_props_cat r st = (inr f, st).
Proof.
  intros H. unfold read_props_cat, bind, deref. now rewrite H.
Qed.

Lemma read_merged_run (r : nat) (f : list (Row * Z)) (st : Store) :
  nth_error st r = Some (OMerged f) -> read_merged r st = (inr f, st).
Proof.
  intros H. unfold read_merged, bind, deref. now rewrite H.
Qed.

Lemma read_merged_p_run (r : nat) (f : list MergedP) (st : Store) :
  nth_error st r = Some (OMergedP f) -> read_merged_p r st = (inr f, st).
Proof.
  intros H. unfold read_merged_p, bind, deref. now rewrite H.
Qed.

Lemma read_table_fail (r : nat) (st : Store) :
  (forall t, nth_error st r <> Some (OTable t)) ->
  read_table r st = (inl TypeError, st).
Proof.
  intros H. unfold read_table, bind, deref.
  destruct (nth_error st r) as [[] |] eqn:E; try reflexivity.
  exfalso. now apply (H rows).
Qed.

(** One turn of the loop of lines 85-87 on the frame [health_prop] names. *)
Lemma fill_turn_run (st : Store) (f : Frame (string * float2)) (i : string) :
  (f' <- read_props (List.length st) ;;
   if all_ne i f'
   then assign (List.length st) (OProps (loc_set 2 (i, Fin 0) f'))
   else ret tt) (st ++ [OProps f])
  = (inr tt, (st ++ [OProps (fill_step f i)])).
Proof.
  unfold bind. rewrite (read_props_run _ f) by apply nth_error_snoc.
  unfold fill_step. destruct (all_ne i f).
  - unfold assign. now rewrite update_snoc.
  - reflexivity.
Qed.

Lemma fill_loop_run (st : Store) (l : list string)
    (f : Frame (string * float2)) :
  for_each l
    (fun i =>
       f' <- read_props (List.length st) ;;
       if all_ne i f'
       then assign (List.length st) (OProps (loc_set 2 (i, Fin 0) f'))
       else ret tt) (st ++ [OProps f])
  = (inr tt, st ++ [OProps (fold_left fill_step l f)]).
Proof.
  revert f. induction l as [| i l IH]; intros f; [reflexivity |].
  cbn [for_each fold_left]. unfold bind at 1.
  rewrite fill_turn_run. apply IH.
Qed.

Lemma health_prop_run (borough species : string) (t : list Row)
    (st : Store) :
  nth_error st nyctrees = Some (OTable t) ->
  health_prop borough species st
  = (inr (health_figure borough species (select borough species t)),
     (st ++ [OTable (select borough species t);
             OPropsCat (health_frame (select borough species t))])).
Proof.
  intros H. unfold health_prop.
  set (df := select borough species t).
  unfold bind at 1. rewrite (read_table_run _ t) by exact H.
  unfold bind at 1. unfold new at 1.
  unfold bind at 1. rewrite (read_table_run _ df) by apply nth_error_snoc.
  unfold bind at 1. unfold new at 1.
  set (st1 := (st ++ [OTable df])).
  unfold bind at 1. rewrite fill_loop_run.
  fold (fill_missing (reset_index (proportions df))).
  unfold bind at 1. rewrite (read_props_run _ _ _ (nth_error_snoc _ _)).
  unfold bind at 1. unfold assign at 1. rewrite update_snoc.
  unfold bind at 1.
  rewrite (read_props_cat_run _ _ _ (nth_error_snoc _ _)).
  unfold ret, health_figure, health_frame, health_frame_of.
  subst st1. rewrite <- app_assoc. reflexivity.
Qed.

Lemma stewardship_run (borough species : string) (t : list Row)
    (st : Store) :
  nth_error st nyctrees = Some (OTable t) ->
  stewardship borough species st
  = (steward_figure borough species (select borough species t),
     (st ++ [OTable (select borough species t);
             OMergedP (merged_p (select borough species t))])).
Proof.
  intros H. unfold stewardship.
  set (df := select borough species t).
  unfold bind at 1. rewrite (read_table_run _ t) by exact H.
  unfold bind at 1. unfold new at 1.
  unfold bind at 1. rewrite (read_table_run _ df) by apply nth_error_snoc.
  unfold bind at 1. unfold new at 1.
  set (st1 := (st ++ [OTable df])).
  unfold bind at 1. rewrite (read_merged_run _ _ _ (nth_error_snoc _ _)).
  unfold bind at 1. unfold assign at 1. rewrite update_snoc.
  unfold bind at 1.
  rewrite (read_merged_p_run _ _ _ (nth_error_snoc _ _)).
  fold (merged_p df).
  rewrite <- app_assoc. cbn [app].
  unfold steward_figure, ebind, bind, lift, ret.
  repeat match goal with
         | |- context [match ?r with inl _ => _ | inr _ => _ end] =>
             destruct r; try reflexivity
         end.
Qed.

Lemma run_health_prop (borough species : string) (t : list Row) :
  run (health_prop borough species) t
  = inr (health_figure borough species (select borough species t)).
Proof.
  unfold run. now rewrite (health_prop_run borough species t).
Qed.

Lemma run_stewardship (borough species : string) (t : list Row) :
  run (stewardship borough species) t
  = steward_figure borough species (select borough species t).
Proof.
  unfold run. now rewrite (stewardship_run borough species t).
Qed.

(** ** First view *)

Lemma health_figure_x (borough species : string) (df : list Row) :
  hf_x (health_figure borough species df)
  = map fst (bars_of (proportions df)).
Proof.
  unfold health_figure, bars_of, health_frame. cbn [hf_x].
  now rewrite map_map.
Qed.

Lemma health_figure_y (borough species : string) (df : list Row) :
  hf_y (health_figure borough species df)
  = map snd (bars_of (proportions df)).
Proof.
  unfold health_figure, bars_of, health_frame. cbn [hf_y].
  now rewrite map_map.
Qed.

Lemma valid_health_total (df : list Row) :
  valid_health df = true ->
  total df
  = Zsum (map (fun k => group_sum health k df)
              (filter (present (map health df)) ["Fair"; "Good"; "Poor"])).
Proof.
  intros Hv. rewrite <- (health_keys df Hv).
  symmetry. apply group_sums_total.
  - apply sorted_NoDup, sorted_unique_sorted.
  - intros r Hr. apply sorted_unique_In. now apply in_map.
Qed.

Lemma valid_health_rounded (df : list Row) :
  valid_health df = true -> total df <> 0 ->
  99 <= Zsum (map (fun c => round_half_even (100 * c) (total df))
                  (map (fun k => group_sum health k df)
                       (filter (present (map health df))
                               ["Fair"; "Good"; "Poor"]))) <= 101.
Proof.
  intros Hv Ht. apply rounded_sum_near_100.
  - exact Ht.
  - symmetry. now apply valid_health_total.
  - rewrite length_map.
    apply (filter_length_le (present (map health df)) ["Fair"; "Good"; "Poor"]).
Qed.

(** C1, as amended: when the health states are among Good, Fair and Poor and
    the matching rows' counts add up to a nonzero total, the first view
    returns a figure whose proportions are finite and sum to 1.0 up to the
    rounding of each: between 0.99 and 1.01. *)
Theorem health_prop_sums_to_one (t : list Row) (borough species : string) :
  valid_health (select borough species t) = true ->
  total (select borough species t) <> 0 ->
  exists fig,
    run (health_prop borough species) t = inr fig
    /\ sums_to_one (hf_y fig).
Proof.
  intros Hv Ht. rewrite run_health_prop. eexists. split; [reflexivity |].
  rewrite health_figure_y.
  set (df := select borough species t) in *.
  pose proof (valid_health_rounded df Hv Ht) as Hb.
  pose proof (valid_health_total df Hv) as Hsum.
  rewrite (proportions_valid df Hv Ht).
  unfold sums_to_one.
  cbn [filter] in *.
  destruct (present (map health df) "Fair"),
           (present (map health df) "Good"),
           (present (map health df) "Poor");
    cbn [map Zsum fold_right] in Hb, Hsum |- *;
    try (exfalso; apply Ht; exact Hsum);
    repeat match goal with
           | H : context [round_half_even ?a ?b] |- _ =>
               let v := fresh "v" in
               set (v := round_half_even a b) in *; clearbody v
           end;
    match goal with
    | |- exists s, finite_sum ?ys = Some s /\ _ =>
        let ys' := eval vm_compute in ys in change ys with ys'
    end;
    cbn [finite_sum option_map]; eexists; (split; [reflexivity | lia]).
Qed.

Lemma health_prop_sums_to_one_witness :
  valid_health (select "Bronx" "Red Maple" sample_table) = true
  /\ total (select "Bronx" "Red Maple" sample_table) <> 0
  /\ exists fig,
       run (health_prop "Bronx" "Red Maple") sample_table = inr fig
       /\ sums_to_one (hf_y fig).
Proof.
  split; [reflexivity |]. split; [vm_compute; discriminate |].
  apply (health_prop_sums_to_one sample_table "Bronx" "Red Maple");
    [reflexivity | vm_compute; discriminate].
Defined.

(** C1 as stated fails: a selection whose single matching row counts no tree
    has a zero total, and the proportion returned for it is not a number. *)
Lemma health_prop_zero_total_counterexample :
  wf_table zero_count_table = true
  /\ select "Queens" "Ginkgo" zero_count_table <> []
  /\ (exists fig,
        run (health_prop "Queens" "Ginkgo") zero_count_table = inr fig
        /\ hf_y fig = [NaN; Fin 0])
  /\ ~ (exists fig,
          run (health_prop "Queens" "Ginkgo") zero_count_table = inr fig
          /\ sums_to_one (hf_y fig)).
Proof.
  split; [reflexivity |]. split; [discriminate |]. split.
  - eexists. split; reflexivity.
  - intros [fig [Hrun [s [Hs _]]]].
    vm_compute in Hrun. injection Hrun as <-. discriminate Hs.
Qed.

(** C4 at its failing input: with Good the only health state among the
    matching rows, the loop writes Fair and then Poor into the same row, so
    the figure has no Fair bar. *)
Theorem health_prop_single_state_drops_fair :
  run (health_prop "Queens" "Ginkgo") sample_table
  = inr (mkHealthFigure [Some "Good"; Some "Poor"] [Fin 100; Fin 0]
           ["#109618"; "#FFA15A"; "#990099"]
           "Health of Ginkgo Trees in Queens").
Proof. reflexivity. Qed.

(** With at most one health state absent, the first view lists Good, Fair,
    Poor in this order. *)
Lemma health_prop_order (t : list Row) (borough species : string) :
  let df := select borough species t in
  valid_health df = true -> total df <> 0 ->
  (2 <= List.length (sorted_unique (map health df)))%nat ->
  hf_x (health_figure borough species df)
  = [Some "Good"; Some "Fair"; Some "Poor"].
Proof.
  intros df Hv Ht Hn. rewrite health_figure_x.
  rewrite (health_keys df Hv) in Hn.
  rewrite (proportions_valid df Hv Ht).
  cbn [filter] in *.
  destruct (present (map health df) "Fair"),
           (present (map health df) "Good"),
           (present (map health df) "Poor");
    cbn [List.length] in Hn; try lia;
    cbn [map];
    repeat match goal with
           | |- context [round_half_even ?a ?b] =>
               generalize (round_half_even a b); intro
           end;
    reflexivity.
Qed.

(** C5: counts Good=30, Fair=10 and no Poor count give the bars Good 0.75,
    Fair 0.25, Poor 0.0, in this order. *)
Theorem health_prop_example (t : list Row) (borough species : string) :
  valid_health (select borough species t) = true ->
  group_sum health "Good" (select borough species t) = 30 ->
  group_sum health "Fair" (select borough species t) = 10 ->
  group_sum health "Poor" (select borough species t) = 0 ->
  exists fig,
    run (health_prop borough species) t = inr fig
    /\ hf_x fig = [Some "Good"; Some "Fair"; Some "Poor"]
    /\ hf_y fig = [Fin 75; Fin 25; Fin 0].
Proof.
  intros Hv Hg Hf Hp. rewrite run_health_prop.
  eexists. split; [reflexivity |].
  rewrite health_figure_x, health_figure_y.
  set (df := select borough species t) in *.
  assert (Ht : total df = 40).
  { rewrite <- (group_sums_total health ["Fair"; "Good"; "Poor"] df).
    - cbn [map Zsum fold_right]. lia.
    - repeat constructor; simpl; intuition discriminate.
    - intros r Hr. apply (valid_health_In df Hv). now apply in_map. }
  rewrite (proportions_valid df Hv) by lia.
  cbn [filter].
  destruct (present (map health df) "Good") eqn:Eg;
    [| apply group_sum_absent in Eg; lia].
  destruct (present (map health df) "Fair") eqn:Ef;
    [| apply group_sum_absent in Ef; lia].
  destruct (present (map health df) "Poor");
    cbn [map]; rewrite ?Hg, ?Hf, ?Hp, Ht; split; reflexivity.
Qed.

Lemma health_prop_example_witness :
  valid_health (select "Bronx" "Pin Oak" sample_table) = true
  /\ group_sum health "Good" (select "Bronx" "Pin Oak" sample_table) = 30
  /\ group_sum health "Fair" (select "Bronx" "Pin Oak" sample_table) = 10
  /\ group_sum health "Poor" (select "Bronx" "Pin Oak" sample_table) = 0
  /\ exists fig,
       run (health_prop "Bronx" "Pin Oak") sample_table = inr fig
       /\ hf_x fig = [Some "Good"; Some "Fair"; Some "Poor"]
       /\ hf_y fig = [Fin 75; Fin 25; Fin 0].
Proof.
  repeat (split; [reflexivity |]).
  apply (health_prop_example sample_table "Bronx" "Pin Oak"); reflexivity.
Defined.

(** ** Second view: the merged frame *)

Lemma flat_map_singleton {A B : Type} (f : A -> list B) (h : A -> B)
    (l : list A) :
  (forall x, In x l -> f x = [h x]) -> flat_map f l = map h l.
Proof.
  induction l as [| x l IH]; intros H; [reflexivity |].
  cbn [flat_map map]. rewrite (H x (or_introl eq_refl)), IH.
  - reflexivity.
  - intros y Hy. apply H. now right.
Qed.

Lemma filter_key_absent (g : string -> Z) (keys : list string) (a : string) :
  ~ In a keys ->
  filter (fun kt => (fst kt =? a)%string) (map (fun k => (k, g k)) keys) = [].
Proof.
  induction keys as [| k keys IH]; intros H; [reflexivity |].
  cbn [map filter fst].
  destruct (String.eqb_spec k a) as [-> | Hne].
  - exfalso. apply H. now left.
  - apply IH. intros Hin. apply H. now right.
Qed.

Lemma filter_key (g : string -> Z) (keys : list string) (a : string) :
  NoDup keys -> In a keys ->
  filter (fun kt => (fst kt =? a)%string) (map (fun k => (k, g k)) keys)
  = [(a, g a)].
Proof.
  induction 1 as [| k keys Hk Hnd IH]; intros Hin; [destruct Hin |].
  cbn [map filter fst].
  destruct (String.eqb_spec k a) as [-> | Hne].
  - now rewrite filter_key_absent.
  - destruct Hin as [E | Hin]; [contradiction |]. now apply IH.
Qed.

(** Every row is joined with the total of its own steward bucket. *)
Lemma merge_groupby (df : list Row) :
  merge df (groupby_sum steward df)
  = map (fun r => (r, group_sum steward (steward r) df)) df.
Proof.
  unfold merge, groupby_sum. apply flat_map_singleton.
  intros r Hr. rewrite filter_key.
  - reflexivity.
  - apply sorted_NoDup, sorted_unique_sorted.
  - apply sorted_unique_In. now apply in_map.
Qed.

Lemma merged_p_rows (df : list Row) :
  merged_p df
  = map (fun r => (r, bucket_total df r,
                   div_round2 (count_tree_id r) (bucket_total df r))) df.
Proof.
  unfold merged_p, with_steward_p. rewrite merge_groupby, map_map.
  reflexivity.
Qed.

Lemma merged_p_m_row (df : list Row) : map m_row (merged_p df) = df.
Proof.
  rewrite merged_p_rows, map_map. unfold m_row. cbn [fst].
  apply map_id.
Qed.

Lemma find_map {A B : Type} (p : A -> bool) (f : B -> A) (l : list B) :
  find p (map f l) = option_map f (find (fun x => p (f x)) l).
Proof.
  induction l as [| x l IH]; [reflexivity |].
  cbn [map find]. destruct (p (f x)); [reflexivity | exact IH].
Qed.

Lemma pivot_cell_merged {V : Type} (nan : V) (values : MergedP -> V)
    (df : list Row) (h s : string) :
  pivot_cell nan values (merged_p df) h s
  = match find_cell df h s with
    | Some r => values (r, bucket_total df r,
                        div_round2 (count_tree_id r) (bucket_total df r))
    | None => nan
    end.
Proof.
  unfold pivot_cell, find_cell. rewrite merged_p_rows, find_map.
  unfold m_row. cbn [fst].
  destruct (find _ df); reflexivity.
Qed.

(** ** Second view: the pivoted frames *)

Lemma position_None (c : string) (l : list string) :
  position c l = None -> ~ In c l.
Proof.
  induction l as [| x l IH]; cbn [position]; intros H Hin; [destruct Hin |].
  destruct (String.eqb_spec c x) as [-> | Hne]; [discriminate |].
  destruct (position c l); [discriminate |].
  destruct Hin as [E | Hin]; [congruence | now apply IH].
Qed.

Lemma position_nth {V : Type} (g : string -> V) (d : V) (c : string)
    (l : list string) (j : nat) :
  position c l = Some j -> nth j (map g l) d = g c.
Proof.
  revert j. induction l as [| x l IH]; cbn [position]; intros j H;
    [discriminate |].
  destruct (String.eqb_spec c x) as [-> | Hne].
  - injection H as <-. reflexivity.
  - destruct (position c l) as [i |]; [| discriminate].
    injection H as <-. cbn [map nth]. now apply IH.
Qed.

Lemma combine_map {A B : Type} (f : A -> B) (l : list A) :
  combine l (map f l) = map (fun x => (x, f x)) l.
Proof.
  induction l as [| x l IH]; [reflexivity |]. cbn [map combine].
  now rewrite IH.
Qed.

Lemma find_cell_absent (df : list Row) (h s : string) :
  ~ In s (map steward df) -> find_cell df h s = None.
Proof.
  intros H. unfold find_cell.
  destruct (find _ df) as [r |] eqn:E; [| reflexivity].
  apply find_some in E. destruct E as [Hin Hp].
  apply andb_true_iff in Hp. destruct Hp as [_ Hs].
  apply String.eqb_eq in Hs. exfalso. apply H. subst s. now apply in_map.
Qed.

Section Pivoted.
Context {V : Type} (nan zero : V) (isnan : V -> bool)
        (values : MergedP -> V).
Hypothesis isnan_nan : isnan nan = true.

(** Pivoting, reindexing to the four buckets, resetting the index and
    filling: one row per health state that occurs, one cell per bucket,
    zero where no row carries the pair. *)
Lemma pivoted_frame (df : list Row) :
  unique_cells df = true ->
  match pivot nan values (merged_p df) with
  | inl e => inl e
  | inr p =>
      inr (fillna isnan zero
             (pivot_reset_index (reindex_columns categories zero p)))
  end
  = inr (map (fun h => (h, map (filled nan zero isnan values df h) categories))
             (sorted_unique (map health df))).
Proof.
  intros Hu. unfold pivot.
  assert (Hpairs :
    map (fun m => (health (m_row m), steward (m_row m))) (merged_p df)
    = map (fun r => (health r, steward r)) df).
  { rewrite <- (merged_p_m_row df) at 2. now rewrite map_map. }
  rewrite Hpairs. unfold unique_cells in Hu.
  apply negb_true_iff in Hu. rewrite Hu.
  assert (Hh : map (fun m => health (m_row m)) (merged_p df)
               = map health df).
  { rewrite <- (merged_p_m_row df) at 2. now rewrite map_map. }
  assert (Hs : map (fun m => steward (m_row m)) (merged_p df)
               = map steward df).
  { rewrite <- (merged_p_m_row df) at 2. now rewrite map_map. }
  rewrite Hh, Hs. f_equal.
  unfold reindex_columns, pivot_reset_index, fillna.
  cbn [pv_index pv_cells pv_columns].
  rewrite map_map, combine_map, map_map. cbn [fst snd].
  apply map_ext. intros h. f_equal.
  rewrite map_map. apply map_ext. intros c. unfold filled.
  destruct (position c (sorted_unique (map steward df))) as [j |] eqn:E.
  - now rewrite (position_nth _ _ _ _ _ E).
  - apply position_None in E. rewrite sorted_unique_In in E.
    rewrite pivot_cell_merged, (find_cell_absent df h c E), isnan_nan.
    destruct (isnan zero); reflexivity.
Qed.
End Pivoted.

Lemma steward_health_frame_rows (df : list Row) :
  unique_cells df = true ->
  steward_health_frame (merged_p df)
  = inr (map (fun h => (h, map (filled NaN (Fin 0) is_nan steward_p df h)
                               categories))
             (sorted_unique (map health df))).
Proof.
  intros Hu. unfold steward_health_frame.
  now apply pivoted_frame.
Qed.

Lemma hover_frame_rows (df : list Row) :
  unique_cells df = true ->
  hover_frame (merged_p df)
  = inr (map (fun h => (h, map (filled None (Some 0) isna
                                  (fun m => Some (count_tree_id_x m)) df h)
                               categories))
             (sorted_unique (map health df))).
Proof.
  intros Hu. unfold hover_frame.
  now apply (pivoted_frame None (Some 0) isna).
Qed.

(** ** Second view: cells and columns *)

Lemma unique_cells_cons (r : Row) (df : list Row) :
  unique_cells (r :: df) = true ->
  unique_cells df = true
  /\ forall r', In r' df ->
       ((health r' =? health r)%string && (steward r' =? steward r)%string)
       = false.
Proof.
  unfold unique_cells. cbn [map has_duplicates].
  rewrite negb_true_iff, orb_false_iff. intros [He Hd]. split.
  - now rewrite Hd.
  - intros r' Hr'.
    destruct ((health r' =? health r)%string
              && (steward r' =? steward r)%string) eqn:E; [| reflexivity].
    apply andb_true_iff in E. destruct E as [E1 E2].
    apply String.eqb_eq in E1, E2.
    assert (existsb (same_pair (health r, steward r))
                    (map (fun r => (health r, steward r)) df) = true);
      [| congruence].
    apply existsb_exists. exists (health r', steward r'). split.
    + now apply (in_map (fun r => (health r, steward r))).
    + unfold same_pair. cbn [fst snd]. rewrite E1, E2.
      now rewrite !String.eqb_refl.
Qed.

Lemma find_cell_In (df : list Row) (h c : string) (r : Row) :
  find_cell df h c = Some r -> In r df /\ health r = h /\ steward r = c.
Proof.
  unfold find_cell. intros H. apply find_some in H. destruct H as [Hin Hp].
  apply andb_true_iff in Hp. destruct Hp as [H1 H2].
  apply String.eqb_eq in H1, H2. auto.
Qed.

(** In a frame without repeated pairs, the row of a pair is found by its
    pair. *)
Lemma find_cell_unique (df : list Row) (r : Row) :
  unique_cells df = true -> In r df ->
  find_cell df (health r) (steward r) = Some r.
Proof.
  induction df as [| x df IH]; intros Hu Hin; [destruct Hin |].
  apply unique_cells_cons in Hu. destruct Hu as [Hu Hx].
  unfold find_cell. cbn [find].
  destruct ((health x =? health r)%string && (steward x =? steward r)%string)
    eqn:E.
  - destruct Hin as [-> | Hin]; [reflexivity |].
    specialize (Hx r Hin).
    apply andb_true_iff in E. destruct E as [E1 E2].
    apply String.eqb_eq in E1, E2. rewrite E1, E2, !String.eqb_refl in Hx.
    discriminate.
  - destruct Hin as [-> | Hin].
    + rewrite !String.eqb_refl in E. discriminate.
    + now apply IH.
Qed.

Lemma cell_count_find (df : list Row) (h c : string) :
  unique_cells df = true ->
  cell_count df h c
  = match find_cell df h c with
    | Some r => count_tree_id r
    | None => 0
    end.
Proof.
  induction df as [| x df IH]; intros Hu; [reflexivity |].
  apply unique_cells_cons in Hu. destruct Hu as [Hu Hx].
  specialize (IH Hu). unfold cell_count, find_cell in *. cbn [filter find].
  destruct (String.eqb_spec (steward x) c) as [Es | Es].
  - rewrite group_sum_cons, andb_true_r.
    destruct (String.eqb_spec (health x) h) as [Eh | Eh]; [| now rewrite IH].
    rewrite IH.
    destruct (find _ df) as [r' |] eqn:Ef; [| lia].
    apply find_some in Ef. destruct Ef as [Hin Hp].
    apply andb_true_iff in Hp. destruct Hp as [H1 H2].
    apply String.eqb_eq in H1, H2.
    specialize (Hx r' Hin).
    rewrite H1, H2, Eh, Es, !String.eqb_refl in Hx. discriminate.
  - rewrite andb_false_r. exact IH.
Qed.

(** A filled cell of the proportion frame is the rounded share of the pair's
    count in its bucket's total. *)
Lemma filled_steward_p (df : list Row) (h c : string) :
  unique_cells df = true -> group_sum steward c df <> 0 ->
  filled NaN (Fin 0) is_nan steward_p df h c
  = Fin (round_half_even (100 * cell_count df h c) (group_sum steward c df)).
Proof.
  intros Hu Ht. unfold filled.
  rewrite pivot_cell_merged, (cell_count_find df h c Hu).
  destruct (find_cell df h c) as [r |] eqn:E.
  - apply find_cell_In in E. destruct E as [_ [_ Es]].
    unfold steward_p, bucket_total. cbn [snd]. rewrite Es.
    now rewrite div_round2_fin.
  - cbn [is_nan]. now rewrite Z.mul_0_r, round_half_even_zero.
Qed.

Lemma filled_steward_p_absent (df : list Row) (h c : string) :
  present (map steward df) c = false ->
  filled NaN (Fin 0) is_nan steward_p df h c = Fin 0.
Proof.
  intros H. unfold filled. rewrite pivot_cell_merged, find_cell_absent.
  - reflexivity.
  - intros Hin. apply present_In in Hin. congruence.
Qed.

Lemma cell_counts_total (df : list Row) (c : string) :
  Zsum (map (fun h => cell_count df h c) (sorted_unique (map health df)))
  = group_sum steward c df.
Proof.
  unfold cell_count.
  rewrite (group_sums_total health (sorted_unique (map health df))).
  - reflexivity.
  - apply sorted_NoDup, sorted_unique_sorted.
  - intros r Hr. apply filter_In in Hr. destruct Hr as [Hr _].
    apply sorted_unique_In. now apply in_map.
Qed.

Lemma column_of_rows {V : Type} (d : V) (g : string -> string -> V)
    (index : list string) (j : nat) (c : string) :
  nth_error categories j = Some c ->
  column d j (map (fun h => (h, map (g h) categories)) index)
  = map (fun h => g h c) index.
Proof.
  intros Hj. unfold column. rewrite map_map. apply map_ext. intros h.
  cbn [snd]. apply nth_error_nth. now apply map_nth_error.
Qed.

Lemma finite_sum_Fin {A : Type} (f : A -> Z) (l : list A) :
  finite_sum (map (fun x => Fin (f x)) l) = Some (Zsum (map f l)).
Proof.
  induction l as [| x l IH]; [reflexivity |].
  cbn [map finite_sum]. now rewrite IH.
Qed.

Lemma find_key_map {V : Type} (f : string -> V) (h : string)
    (l : list string) :
  In h l ->
  find (fun row => (fst row =? h)%string) (map (fun k => (k, f k)) l)
  = Some (h, f h).
Proof.
  induction l as [| k l IH]; intros Hin; [destruct Hin |].
  cbn [map find fst].
  destruct (String.eqb_spec k h) as [-> | Hne]; [reflexivity |].
  destruct Hin as [E | Hin]; [contradiction | now apply IH].
Qed.

(** ** The table invariant and the selected rows *)

Lemma select_In (borough species : string) (t : list Row) (r : Row) :
  In r (select borough species t) <->
  In r t /\ boroname r = borough /\ spc_common r = species.
Proof.
  unfold select. rewrite filter_In, andb_true_iff.
  now rewrite !String.eqb_eq.
Qed.

Lemma valid_health_select (borough species : string) (t : list Row) :
  valid_health t = true -> valid_health (select borough species t) = true.
Proof.
  unfold valid_health. rewrite !forallb_forall. intros H r Hr.
  apply select_In in Hr. now apply H.
Qed.

Lemma unique_cells_select (borough species : string) (t : list Row) :
  has_duplicate_keys t = false ->
  unique_cells (select borough species t) = true.
Proof.
  unfold unique_cells. rewrite negb_true_iff.
  induction t as [| r t IH]; intros H; [reflexivity |].
  cbn [has_duplicate_keys] in H. apply orb_false_iff in H.
  destruct H as [Hr Ht]. specialize (IH Ht).
  unfold select in *. cbn [filter].
  destruct ((boroname r =? borough)%string && (spc_common r =? species)%string)
    eqn:Esel; [| exact IH].
  cbn [map has_duplicates]. rewrite IH, orb_false_r.
  apply not_true_is_false. intros E.
  apply existsb_exists in E. destruct E as [p [Hp Hsame]].
  apply in_map_iff in Hp. destruct Hp as [r' [<- Hr']].
  apply filter_In in Hr'. destruct Hr' as [Hin Hsel'].
  apply andb_true_iff in Esel, Hsel', Hsame.
  destruct Esel as [E1 E2], Hsel' as [E1' E2'], Hsame as [E3 E4].
  cbn [fst snd] in E3, E4.
  apply String.eqb_eq in E1, E2, E1', E2', E3, E4.
  assert (existsb (same_key r) t = true); [| congruence].
  apply existsb_exists. exists r'. split; [exact Hin |].
  unfold same_key. rewrite E1, E2, E1', E2', E3, E4.
  now rewrite !String.eqb_refl.
Qed.

(** Every selection from a table that meets the invariant meets the
    conditions the statements below put on the selected rows. *)
Lemma wf_table_select (borough species : string) (t : list Row) :
  wf_table t = true ->
  valid_health (select borough species t) = true
  /\ unique_cells (select borough species t) = true.
Proof.
  unfold wf_table. rewrite andb_true_iff, negb_true_iff. intros [Hv Hd].
  split.
  - now apply valid_health_select.
  - now apply unique_cells_select.
Qed.

(** ** Second view: the figure *)

Lemma steward_figure_inv (borough species : string) (df : list Row)
    (fig : StewardFigure) :
  steward_figure borough species df = inr fig ->
  exists hover frame y0 y1 y2 t0 t1 t2,
    hover_frame (merged_p df) = inr hover
    /\ steward_health_frame (merged_p df) = inr frame
    /\ nth_error frame 0 = Some y0 /\ nth_error frame 1 = Some y1
    /\ nth_error frame 2 = Some y2
    /\ nth_error hover 0 = Some t0 /\ nth_error hover 1 = Some t1
    /\ nth_error hover 2 = Some t2
    /\ fig = mkStewardFigure
               [mkTrace categories (snd y1) (snd t1) "#109618" "Good";
                mkTrace categories (snd y0) (snd t0) "#FFA15A" "Fair";
                mkTrace categories (snd y2) (snd t2) "#990099" "Poor"]
               (steward_title borough species).
Proof.
  unfold steward_figure, ebind, loc. intros H.
  destruct (hover_frame (merged_p df)) as [| hover]; [discriminate |].
  destruct (steward_health_frame (merged_p df)) as [| frame];
    [discriminate |].
  destruct (nth_error frame 1) as [y1 |] eqn:Ey1; [| discriminate].
  destruct (nth_error hover 1) as [t1 |] eqn:Et1; [| discriminate].
  destruct (nth_error frame 0) as [y0 |] eqn:Ey0; [| discriminate].
  destruct (nth_error hover 0) as [t0 |] eqn:Et0; [| discriminate].
  destruct (nth_error frame 2) as [y2 |] eqn:Ey2; [| discriminate].
  destruct (nth_error hover 2) as [t2 |] eqn:Et2; [| discriminate].
  injection H as <-.
  exists hover, frame, y0, y1, y2, t0, t1, t2.
  repeat (split; [first [reflexivity | assumption] |]). reflexivity.
Qed.

Lemma three_rows {A : Type} (l : list A) (a b c : A) :
  nth_error l 0 = Some a -> nth_error l 1 = Some b ->
  nth_error l 2 = Some c -> (List.length l <= 3)%nat -> l = [a; b; c].
Proof.
  destruct l as [| x [| y [| z [| w l]]]]; cbn; intros; try discriminate;
    try lia.
  congruence.
Qed.

Lemma sums_to_one_swap (a b c : float2) :
  sums_to_one [a; b; c] -> sums_to_one [b; a; c].
Proof.
  unfold sums_to_one. intros [s [Hs Hb]].
  destruct a, b, c; cbn in *; try discriminate.
  injection Hs as <-. eexists. split; [reflexivity | lia].
Qed.

Section SecondView.
Variables (t : list Row) (borough species : string).
Local Abbreviation df := (select borough species t).
Hypothesis Hvalid : valid_health df = true.
Hypothesis Hunique : unique_cells df = true.

Lemma frame_column (j : nat) (c : string) :
  nth_error categories j = Some c ->
  column NaN j
    (map (fun h => (h, map (filled NaN (Fin 0) is_nan steward_p df h)
                           categories))
         (sorted_unique (map health df)))
  = map (fun h => filled NaN (Fin 0) is_nan steward_p df h c)
        (sorted_unique (map health df)).
Proof.
  intros Hj.
  exact (column_of_rows NaN (filled NaN (Fin 0) is_nan steward_p df)
           (sorted_unique (map health df)) j c Hj).
Qed.

Lemma bucket_sums_to_one (j : nat) (c : string) :
  nth_error categories j = Some c -> group_sum steward c df <> 0 ->
  sums_to_one
    (column NaN j
       (map (fun h => (h, map (filled NaN (Fin 0) is_nan steward_p df h)
                              categories))
            (sorted_unique (map health df)))).
Proof.
  intros Hj Ht. rewrite (frame_column j c Hj).
  rewrite (map_ext _ (fun h => Fin (round_half_even (100 * cell_count df h c)
                                      (group_sum steward c df))))
    by (intros h; now apply filled_steward_p).
  unfold sums_to_one. rewrite finite_sum_Fin. eexists. split; [reflexivity |].
  rewrite <- (map_map (fun h => cell_count df h c)
                      (fun x => round_half_even (100 * x)
                                  (group_sum steward c df))).
  apply rounded_sum_near_100.
  - exact Ht.
  - apply cell_counts_total.
  - rewrite length_map. now apply health_keys_length.
Qed.

Lemma bucket_all_zero (j : nat) (c : string) :
  nth_error categories j = Some c ->
  present (map steward df) c = false ->
  Forall (eq (Fin 0))
    (column NaN j
       (map (fun h => (h, map (filled NaN (Fin 0) is_nan steward_p df h)
                              categories))
            (sorted_unique (map health df)))).
Proof.
  intros Hj Hc. rewrite (frame_column j c Hj).
  apply Forall_forall. intros v Hv. apply in_map_iff in Hv.
  destruct Hv as [h [<- _]]. symmetry. now apply filled_steward_p_absent.
Qed.

Lemma bucket_cell (j : nat) (c : string) (r : Row) :
  nth_error categories j = Some c ->
  In r df -> steward r = c -> group_sum steward c df <> 0 ->
  cell_at
    (map (fun h => (h, map (filled NaN (Fin 0) is_nan steward_p df h)
                           categories))
         (sorted_unique (map health df)))
    (health r) j
  = Some (div_round2 (count_tree_id r) (group_sum steward c df)).
Proof.
  intros Hj Hr Hs Ht. unfold cell_at.
  rewrite find_key_map by (apply sorted_unique_In; now apply in_map).
  cbn [snd]. rewrite (map_nth_error _ _ _ Hj). f_equal.
  rewrite (filled_steward_p df (health r) c Hunique Ht).
  rewrite (cell_count_find df (health r) c Hunique).
  rewrite <- Hs, (find_cell_unique df r Hunique Hr).
  now rewrite div_round2_fin by (rewrite Hs; exact Ht).
Qed.

Lemma frame_length :
  (List.length
     (map (fun h => (h, map (filled NaN (Fin 0) is_nan steward_p df h)
                            categories))
          (sorted_unique (map health df))) <= 3)%nat.
Proof. rewrite length_map. now apply health_keys_length. Qed.

(** C10: when the matching rows, with health states among the three and no
    repeated (health, steward) pair, include each of Fair, Good and Poor,
    the pivoted frames have the rows Fair, Good, Poor at labels 0, 1, 2,
    the callback returns, and its traces named Good, Fair and Poor carry
    the rows at labels 1, 0 and 2, whose health is the trace's name. *)
Theorem stewardship_three_states :
  present (map health df) "Fair" = true ->
  present (map health df) "Good" = true ->
  present (map health df) "Poor" = true ->
  exists hover frame fig,
    hover_frame (merged_p df) = inr hover
    /\ steward_health_frame (merged_p df) = inr frame
    /\ map fst frame = ["Fair"; "Good"; "Poor"]
    /\ map fst hover = ["Fair"; "Good"; "Poor"]
    /\ run (stewardship borough species) t = inr fig
    /\ map (fun tr => Some (tr_name tr, tr_y tr)) (sf_data fig)
       = map (nth_error frame) [1; 0; 2]%nat
    /\ map (fun tr => Some (tr_name tr, tr_text tr)) (sf_data fig)
       = map (nth_error hover) [1; 0; 2]%nat.
Proof.
  intros Hf Hg Hp. rewrite run_stewardship. unfold steward_figure.
  rewrite (hover_frame_rows df Hunique),
          (steward_health_frame_rows df Hunique),
          (health_keys df Hvalid).
  cbn [filter]. rewrite Hf, Hg, Hp.
  cbn [map ebind loc nth_error fst snd].
  do 3 eexists. repeat split; reflexivity.
Qed.
End SecondView.

Lemma stewardship_three_states_witness :
  valid_health (select "Bronx" "Red Maple" sample_table) = true
  /\ unique_cells (select "Bronx" "Red Maple" sample_table) = true
  /\ present (map health (select "Bronx" "Red Maple" sample_table)) "Fair"
     = true
  /\ present (map health (select "Bronx" "Red Maple" sample_table)) "Good"
     = true
  /\ present (map health (select "Bronx" "Red Maple" sample_table)) "Poor"
     = true
  /\ exists hover frame fig,
       hover_frame (merged_p (select "Bronx" "Red Maple" sample_table))
       = inr hover
       /\ steward_health_frame
            (merged_p (select "Bronx" "Red Maple" sample_table)) = inr frame
       /\ map fst frame = ["Fair"; "Good"; "Poor"]
       /\ map fst hover = ["Fair"; "Good"; "Poor"]
       /\ run (stewardship "Bronx" "Red Maple") sample_table = inr fig
       /\ map (fun tr => Some (tr_name tr, tr_y tr)) (sf_data fig)
          = map (nth_error frame) [1; 0; 2]%nat
       /\ map (fun tr => Some (tr_name tr, tr_text tr)) (sf_data fig)
          = map (nth_error hover) [1; 0; 2]%nat.
Proof.
  repeat (split; [reflexivity |]).
  apply (stewardship_three_states sample_table "Bronx" "Red Maple");
    reflexivity.
Defined.

(** C3 at its failing inputs: when no row matches the selection, the first
    callback returns a figure with the single bar Poor of height zero, and
    the second raises [KeyError] at its first row lookup. *)
Theorem empty_selection_stewardship_raises (t : list Row)
    (borough species : string) :
  select borough species t = [] ->
  run (health_prop borough species) t
  = inr (mkHealthFigure [Some "Poor"] [Fin 0]
           ["#109618"; "#FFA15A"; "#990099"]
           (health_title borough species))
  /\ run (stewardship borough species) t = inl (KeyError 1).
Proof.
  intros H. rewrite run_health_prop, run_stewardship, H.
  split; reflexivity.
Qed.

Lemma empty_selection_stewardship_raises_witness :
  select "Bronx" "Ginkgo" sample_table = []
  /\ run (stewardship "Bronx" "Ginkgo") sample_table = inl (KeyError 1).
Proof.
  split; [reflexivity |].
  apply (empty_selection_stewardship_raises sample_table "Bronx" "Ginkgo").
  reflexivity.
Defined.

(** ** The table is left alone *)

Lemma nth_error_grown (st extra : Store) :
  nth_error (st ++ extra) nyctrees = nth_error st nyctrees
  \/ nth_error st nyctrees = None.
Proof.
  destruct st as [| o st]; [now right | now left].
Qed.

Lemma health_prop_leaves_nyctrees (borough species : string) (st : Store) :
  nth_error (snd (health_prop borough species st)) nyctrees
  = nth_error st nyctrees.
Proof.
  destruct (nth_error st nyctrees) as [o |] eqn:E.
  - destruct o as [t | | | |];
      try (unfold health_prop, bind at 1;
           rewrite read_table_fail by (intros t'; rewrite E; discriminate);
           exact E).
    rewrite (health_prop_run borough species t st E). cbn [snd].
    destruct (nth_error_grown st
                [OTable (select borough species t);
                 OPropsCat (health_frame (select borough species t))])
      as [H | H]; congruence.
  - unfold health_prop, bind at 1.
    rewrite read_table_fail by (intros t'; rewrite E; discriminate).
    exact E.
Qed.

Lemma stewardship_leaves_nyctrees (borough species : string) (st : Store) :
  nth_error (snd (stewardship borough species st)) nyctrees
  = nth_error st nyctrees.
Proof.
  destruct (nth_error st nyctrees) as [o |] eqn:E.
  - destruct o as [t | | | |];
      try (unfold stewardship, bind at 1;
           rewrite read_table_fail by (intros t'; rewrite E; discriminate);
           exact E).
    rewrite (stewardship_run borough species t st E). cbn [snd].
    destruct (nth_error_grown st
                [OTable (select borough species t);
                 OMergedP (merged_p (select borough species t))])
      as [H | H]; congruence.
  - unfold stewardship, bind at 1.
    rewrite read_table_fail by (intros t'; rewrite E; discriminate).
    exact E.
Qed.

Lemma serve_leaves_nyctrees (calls : list Call) (st : Store) :
  nth_error (serve calls st) nyctrees = nth_error st nyctrees.
Proof.
  revert st. induction calls as [| c calls IH]; intros st; [reflexivity |].
  unfold serve in *. cbn [fold_left]. rewrite IH.
  destruct c; cbn [invoke].
  - apply health_prop_leaves_nyctrees.
  - apply stewardship_leaves_nyctrees.
Qed.

(** C9: whether it returns or raises, a callback leaves the object behind
    [nyctrees] as it found it; so after any sequence of callback invocations
    the table is the one start-up loaded. *)
Theorem callbacks_leave_nyctrees :
  (forall borough species st,
      nth_error (snd (health_prop borough species st)) nyctrees
      = nth_error st nyctrees)
  /\ (forall borough species st,
         nth_error (snd (stewardship borough species st)) nyctrees
         = nth_error st nyctrees)
  /\ (forall calls table,
         nth_error (serve calls (startup table)) nyctrees
         = Some (OTable table)).
Proof.
  split; [exact health_prop_leaves_nyctrees |].
  split; [exact stewardship_leaves_nyctrees |].
  intros calls table. now rewrite serve_leaves_nyctrees.
Qed.

(** ** Data tidying *)

Lemma any_na_tidy_raw (r : RawRow) : any_na (tidy_raw r) = any_na r.
Proof.
  destruct r as [[s |] [b |] [h |] [w |] [c |]]; reflexivity.
Qed.

Lemma tidy_rows (fetched : list RawRow) :
  tidy fetched = map tidy_raw (dropna fetched).
Proof.
  unfold tidy, tidy_raw. now rewrite !map_map.
Qed.

Lemma to_row_tidy_raw (r : RawRow) :
  to_row (tidy_raw r) = option_map tidy_row (to_row r).
Proof.
  destruct r as [[s |] [b |] [h |] [w |] [c |]]; reflexivity.
Qed.

Lemma to_rows_dropna (fetched : list RawRow) :
  to_rows (dropna fetched) = to_rows fetched.
Proof.
  induction fetched as [| r fetched IH]; [reflexivity |].
  unfold dropna in *. cbn [filter to_rows].
  destruct r as [[s |] [b |] [h |] [w |] [c |]];
    cbn [any_na isna negb orb to_rows to_row raw_spc_common raw_boroname
         raw_health raw_steward raw_count_tree_id];
    rewrite ?IH; reflexivity.
Qed.

Lemma to_rows_map_tidy_raw (t : list RawRow) :
  to_rows (map tidy_raw t) = map tidy_row (to_rows t).
Proof.
  induction t as [| r t IH]; [reflexivity |].
  cbn [map to_rows]. rewrite to_row_tidy_raw.
  destruct (to_row r); cbn [option_map map]; now rewrite IH.
Qed.

(** The loaded table: the full rows that were fetched, each one tidied. *)
Lemma load_rows (fetched : list RawRow) :
  load fetched = map tidy_row (to_rows fetched).
Proof.
  unfold load. now rewrite tidy_rows, to_rows_map_tidy_raw, to_rows_dropna.
Qed.

Lemma to_rows_length (t : list RawRow) :
  forallb (fun r => negb (any_na r)) t = true ->
  List.length (to_rows t) = List.length t.
Proof.
  induction t as [| r t IH]; [reflexivity |].
  cbn [forallb]. rewrite andb_true_iff. intros [Hr Ht].
  cbn [to_rows].
  destruct r as [[s |] [b |] [h |] [w |] [c |]]; try discriminate Hr.
  cbn. now rewrite IH.
Qed.

Lemma tidy_complete (fetched : list RawRow) :
  forallb (fun r => negb (any_na r)) (tidy fetched) = true.
Proof.
  rewrite tidy_rows. apply forallb_forall. intros r' Hr'.
  apply in_map_iff in Hr'. destruct Hr' as [r [<- Hr]].
  rewrite any_na_tidy_raw. unfold dropna in Hr.
  apply filter_In in Hr. now destruct Hr.
Qed.

(** C6: the four raw steward labels become 0, 1-2, 3-4 and 4+, every other
    value stays, and the loaded rows carry the values so mapped. *)
Theorem steward_labels :
  (forall s,
      normalize_steward s
      = if (s =? "None")%string then "0"
        else if (s =? "1or2")%string then "1-2"
        else if (s =? "3or4")%string then "3-4"
        else if (s =? "4orMore")%string then "4+"
        else s)
  /\ (forall fetched,
         map steward (load fetched)
         = map (fun r => normalize_steward (steward r)) (to_rows fetched)).
Proof.
  split.
  - intros s. unfold normalize_steward, replace.
    destruct (String.eqb_spec s "None") as [-> | H1]; [reflexivity |].
    destruct (String.eqb_spec s "1or2") as [-> | H2]; [reflexivity |].
    destruct (String.eqb_spec s "3or4") as [-> | H3]; [reflexivity |].
    destruct (String.eqb_spec s "4orMore") as [-> | H4]; reflexivity.
  - intros fetched. now rewrite load_rows, map_map.
Qed.

(** C7: tidying drops exactly the fetched rows that miss a field: no row of
    the tidied frame misses one, a fetched row is dropped when it misses a
    field and kept, tidied, when it does not, and the loaded table has as
    many rows as were fetched without a missing field. *)
Theorem dropna_drops_incomplete_rows :
  (forall fetched, forallb (fun r => negb (any_na r)) (tidy fetched) = true)
  /\ (forall r fetched,
         tidy (r :: fetched)
         = if any_na r then tidy fetched else tidy_raw r :: tidy fetched)
  /\ (forall fetched,
         load fetched = map tidy_row (to_rows fetched)
         /\ List.length (load fetched)
            = List.length (filter (fun r => negb (any_na r)) fetched)).
Proof.
  split; [exact tidy_complete |]. split.
  - intros r fetched. rewrite !tidy_rows. unfold dropna. cbn [filter].
    destruct (any_na r); reflexivity.
  - intros fetched. split; [apply load_rows |].
    unfold load. rewrite to_rows_length by apply tidy_complete.
    rewrite tidy_rows. apply length_map.
Qed.

(** C8: title-casing followed by the replacement takes the raw species name
    ['Schubert' chokecherry] to [Schubert Chokecherry], and every loaded row
    carries its species name so normalized. *)
Theorem schubert_chokecherry :
  title "'Schubert' chokecherry" = "'Schubert' Chokecherry"
  /\ replace_schubert "'Schubert' Chokecherry" = "Schubert Chokecherry"
  /\ normalize_species "'Schubert' chokecherry" = "Schubert Chokecherry"
  /\ (forall fetched,
         map spc_common (load fetched)
         = map (fun r => normalize_species (spc_common r)) (to_rows fetched))
  /\ map spc_common (load sample_fetched)
     = ["Schubert Chokecherry"; "Ginkgo"].
Proof.
  repeat (split; [reflexivity |]). split; [| reflexivity].
  intros fetched. now rewrite load_rows, map_map.
Qed.

(** * Further properties of the program *)

(** ** Dropdown selections *)

Lemma sorted_head_least (a x : string) (l : list string) :
  StronglySorted slt (a :: l) -> In x (a :: l) -> sle a x.
Proof.
  intros Hs Hin. apply StronglySorted_inv in Hs. destruct Hs as [_ Ha].
  destruct Hin as [-> | Hin]; [now left | right].
  rewrite Forall_forall in Ha. now apply Ha.
Qed.

Lemma first_option_least (l : list string) (x : string) :
  In x l ->
  exists a, first_option (sorted_unique l) = inr a
            /\ In a l /\ forall y, In y l -> sle a y.
Proof.
  intros Hx. pose proof (sorted_unique_sorted l) as Hs.
  pose proof (sorted_unique_In x l) as Hin.
  destruct (sorted_unique l) as [| a u] eqn:E.
  - exfalso. now apply Hin.
  - exists a. split; [reflexivity |]. split.
    + apply sorted_unique_In. rewrite E. now left.
    + intros y Hy. apply (sorted_head_least a y u Hs).
      rewrite <- E. now apply sorted_unique_In.
Qed.

(** The options of each dropdown rise strictly, so none is listed twice, and
    a value is an option exactly when a row of the table carries it. *)
Theorem dropdown_options_spec (t : list Row) :
  StronglySorted slt (borough_options t)
  /\ NoDup (borough_options t)
  /\ (forall b, In b (borough_options t)
                <-> exists r, In r t /\ boroname r = b)
  /\ StronglySorted slt (species_options t)
  /\ NoDup (species_options t)
  /\ (forall s, In s (species_options t)
                <-> exists r, In r t /\ spc_common r = s).
Proof.
  unfold borough_options, species_options.
  repeat split;
    try apply sorted_unique_sorted;
    try (apply sorted_NoDup, sorted_unique_sorted);
    try (intros H; apply sorted_unique_In, in_map_iff in H;
         destruct H as [r [E Hr]]; now exists r);
    try (intros [r [Hr E]]; apply sorted_unique_In, in_map_iff;
         now exists r).
Qed.

(** Building the layout raises [IndexError] on an empty table; on any other
    table each dropdown starts at the least value its column holds. *)
Theorem layout_defaults :
  layout_dropdowns [] = inl IndexError
  /\ forall r t,
       exists bd sd,
         layout_dropdowns (r :: t) = inr (bd, sd)
         /\ dd_options bd = dropdown_items (borough_options (r :: t))
         /\ dd_options sd = dropdown_items (species_options (r :: t))
         /\ In (dd_value bd) (map boroname (r :: t))
         /\ (forall x, In x (map boroname (r :: t)) -> sle (dd_value bd) x)
         /\ In (dd_value sd) (map spc_common (r :: t))
         /\ (forall x, In x (map spc_common (r :: t))
                       -> sle (dd_value sd) x).
Proof.
  split; [reflexivity |]. intros r t. unfold layout_dropdowns.
  destruct (first_option_least (map boroname (r :: t)) (boroname r)
              (or_introl eq_refl)) as [b [Eb [Hb Hbl]]].
  destruct (first_option_least (map spc_common (r :: t)) (spc_common r)
              (or_introl eq_refl)) as [s [Es [Hs Hsl]]].
  unfold borough_options, species_options. rewrite Eb, Es.
  do 2 eexists. split; [reflexivity |]. cbn [dd_options dd_value].
  repeat split; assumption.
Qed.

(** A selection that matches a row can be made in the dropdowns. *)
Lemma select_options (borough species : string) (t : list Row) (r : Row) :
  In r (select borough species t) ->
  In borough (borough_options t) /\ In species (species_options t).
Proof.
  intros Hr. apply select_In in Hr. destruct Hr as [Hr [<- <-]].
  unfold borough_options, species_options. rewrite !sorted_unique_In.
  split; now apply in_map.
Qed.

(** ** What a view depends on *)

(** A callback's result is the same whatever callbacks ran before it. *)
Theorem callbacks_are_stateless (calls : list Call) (t : list Row)
    (borough species : string) :
  fst (health_prop borough species (serve calls (startup t)))
  = run (health_prop borough species) t
  /\ fst (stewardship borough species (serve calls (startup t)))
     = run (stewardship borough species) t.
Proof.
  assert (H : nth_error (serve calls (startup t)) nyctrees
              = Some (OTable t)) by now rewrite serve_leaves_nyctrees.
  unfold run.
  rewrite (health_prop_run borough species t _ H),
          (stewardship_run borough species t _ H),
          (health_prop_run borough species t (startup t) eq_refl),
          (stewardship_run borough species t (startup t) eq_refl).
  split; reflexivity.
Qed.

(** Two tables with the same rows for a selection give that selection the
    same two views: no row of another borough or species has a say. *)
Theorem views_depend_on_matching_rows (t t' : list Row)
    (borough species : string) :
  select borough species t = select borough species t' ->
  run (health_prop borough species) t = run (health_prop borough species) t'
  /\ run (stewardship borough species) t
     = run (stewardship borough species) t'.
Proof.
  intros H. rewrite !run_health_prop, !run_stewardship, H.
  split; reflexivity.
Qed.

Lemma views_depend_on_matching_rows_witness :
  select "Queens" "Ginkgo" sample_table
  = select "Queens" "Ginkgo" [mkRow "Ginkgo" "Queens" "Good" "3-4" 5]
  /\ run (health_prop "Queens" "Ginkgo") sample_table
     = run (health_prop "Queens" "Ginkgo")
           [mkRow "Ginkgo" "Queens" "Good" "3-4" 5]
  /\ run (stewardship "Queens" "Ginkgo") sample_table
     = run (stewardship "Queens" "Ginkgo")
           [mkRow "Ginkgo" "Queens" "Good" "3-4" 5].
Proof.
  split; [reflexivity |].
  apply (views_depend_on_matching_rows sample_table
           [mkRow "Ginkgo" "Queens" "Good" "3-4" 5] "Queens" "Ginkgo").
  reflexivity.
Defined.

(** ** The order of the rows *)

Lemma Permutation_filter_rows {A : Type} (f : A -> bool) (l l' : list A) :
  Permutation l l' -> Permutation (filter f l) (filter f l').
Proof.
  induction 1 as [| x l l' _ IH | x y l | l l' l'' _ IH1 _ IH2]; cbn [filter].
  - constructor.
  - destruct (f x); [now constructor | exact IH].
  - destruct (f x), (f y); try apply Permutation_refl. apply perm_swap.
  - now transitivity (filter f l').
Qed.

Lemma Zsum_perm (l l' : list Z) : Permutation l l' -> Zsum l = Zsum l'.
Proof.
  induction 1 as [| x l l' _ IH | x y l | l l' l'' _ IH1 _ IH2]; cbn.
  - reflexivity.
  - fold (Zsum l). fold (Zsum l'). lia.
  - fold (Zsum l). lia.
  - congruence.
Qed.

Lemma group_sum_perm (key : Row -> string) (k : string) (df df' : list Row) :
  Permutation df df' -> group_sum key k df = group_sum key k df'.
Proof.
  intros H. unfold group_sum.
  now apply Zsum_perm, Permutation_map, Permutation_filter_rows.
Qed.

Lemma total_perm (df df' : list Row) :
  Permutation df df' -> total df = total df'.
Proof.
  intros H. unfold total. now apply Zsum_perm, Permutation_map.
Qed.

Lemma sorted_unique_perm (l l' : list string) :
  Permutation l l' -> sorted_unique l = sorted_unique l'.
Proof.
  intros H. apply sorted_same_elements; try apply sorted_unique_sorted.
  intros x. rewrite !sorted_unique_In. split; apply Permutation_in;
    [exact H | now symmetry].
Qed.

Lemma proportions_perm (df df' : list Row) :
  Permutation df df' -> proportions df = proportions df'.
Proof.
  intros H. unfold proportions, groupby_sum.
  rewrite !map_map, (total_perm df df' H),
          (sorted_unique_perm (map health df) (map health df'))
    by now apply Permutation_map.
  apply map_ext. intros k. cbn [fst snd].
  now rewrite (group_sum_perm health k df df' H).
Qed.

Lemma select_perm (borough species : string) (t t' : list Row) :
  Permutation t t' ->
  Permutation (select borough species t) (select borough species t').
Proof. apply Permutation_filter_rows. Qed.

(** The first view does not depend on the order of the table's rows. *)
Theorem health_prop_row_order (t t' : list Row) (borough species : string) :
  Permutation t t' ->
  run (health_prop borough species) t = run (health_prop borough species) t'.
Proof.
  intros H. rewrite !run_health_prop. f_equal.
  unfold health_figure, health_frame.
  now rewrite (proportions_perm _ _ (select_perm borough species t t' H)).
Qed.

Lemma health_prop_row_order_witness :
  Permutation sample_table (rev sample_table)
  /\ run (health_prop "Bronx" "Red Maple") sample_table
     = run (health_prop "Bronx" "Red Maple") (rev sample_table).
Proof.
  split; [apply Permutation_rev |].
  apply (health_prop_row_order sample_table (rev sample_table)
           "Bronx" "Red Maple").
  apply Permutation_rev.
Defined.

Lemma same_pair_eq (a b : string * string) :
  same_pair a b = true <-> a = b.
Proof.
  destruct a as [a1 a2], b as [b1 b2]. unfold same_pair. cbn [fst snd].
  rewrite andb_true_iff, !String.eqb_eq. split.
  - intros [-> ->]. reflexivity.
  - intros E. injection E as -> ->. split; reflexivity.
Qed.

Lemma has_duplicates_NoDup (l : list (string * string)) :
  has_duplicates l = false <-> NoDup l.
Proof.
  induction l as [| x l IH]; cbn [has_duplicates].
  - split; [constructor | reflexivity].
  - rewrite orb_false_iff, IH. split.
    + intros [Hx Hl]. constructor; [| exact Hl].
      intros Hin. apply not_true_iff_false in Hx. apply Hx.
      apply existsb_exists. exists x. split; [exact Hin |].
      now apply same_pair_eq.
    + intros H. inversion H as [| ? ? Hx Hl]. subst. split; [| exact Hl].
      apply not_true_is_false. intros E. apply existsb_exists in E.
      destruct E as [y [Hy E]]. apply same_pair_eq in E. now subst.
Qed.

Lemma unique_cells_perm (df df' : list Row) :
  Permutation df df' -> unique_cells df = unique_cells df'.
Proof.
  intros H. unfold unique_cells. f_equal.
  pose proof (Permutation_map (fun r => (health r, steward r)) H) as Hp.
  destruct (has_duplicates (map (fun r => (health r, steward r)) df')) eqn:E.
  - apply not_false_iff_true. intros E'. apply has_duplicates_NoDup in E'.
    apply (Permutation_NoDup Hp), has_duplicates_NoDup in E'. congruence.
  - apply has_duplicates_NoDup. apply has_duplicates_NoDup in E.
    now apply (Permutation_NoDup (Permutation_sym Hp)).
Qed.

Lemma find_cell_perm (df df' : list Row) (h c : string) :
  Permutation df df' -> unique_cells df = true ->
  find_cell df h c = find_cell df' h c.
Proof.
  intros H Hu. pose proof Hu as Hu'. rewrite (unique_cells_perm _ _ H) in Hu'.
  destruct (find_cell df h c) as [r |] eqn:E.
  - apply find_cell_In in E. destruct E as [Hr [<- <-]].
    symmetry. apply find_cell_unique; [exact Hu' |].
    now apply (Permutation_in _ H).
  - destruct (find_cell df' h c) as [r' |] eqn:E'; [| reflexivity].
    apply find_cell_In in E'. destruct E' as [Hr [<- <-]].
    rewrite find_cell_unique in E; [discriminate | exact Hu |].
    now apply (Permutation_in _ (Permutation_sym H)).
Qed.

Lemma filled_perm {V : Type} (nan zero : V) (isnan : V -> bool)
    (values : MergedP -> V) (df df' : list Row) (h c : string) :
  Permutation df df' -> unique_cells df = true ->
  filled nan zero isnan values df h c = filled nan zero isnan values df' h c.
Proof.
  intros H Hu. unfold filled.
  rewrite !pivot_cell_merged, (find_cell_perm df df' h c H Hu).
  destruct (find_cell df' h c) as [r |]; [| reflexivity].
  unfold bucket_total. now rewrite (group_sum_perm steward _ df df' H).
Qed.

Lemma merged_pairs (df : list Row) :
  map (fun m => (health (m_row m), steward (m_row m))) (merged_p df)
  = map (fun r => (health r, steward r)) df.
Proof.
  rewrite <- (merged_p_m_row df) at 2. now rewrite map_map.
Qed.

Lemma pivot_duplicates {V : Type} (nan : V) (values : MergedP -> V)
    (df : list Row) :
  unique_cells df = false ->
  pivot nan values (merged_p df) = inl ValueError.
Proof.
  intros Hu. unfold pivot. rewrite merged_pairs.
  unfold unique_cells in Hu. apply negb_false_iff in Hu. now rewrite Hu.
Qed.

Lemma steward_figure_duplicates (borough species : string) (df : list Row) :
  unique_cells df = false ->
  steward_figure borough species df = inl ValueError.
Proof.
  intros Hu. unfold steward_figure, hover_frame.
  now rewrite (pivot_duplicates _ _ _ Hu).
Qed.

(** [pivot] raises on the merged frame of rows that repeat a (health,
    steward) pair, and so does the callback. *)
Theorem stewardship_duplicate_pair_raises (t : list Row)
    (borough species : string) :
  unique_cells (select borough species t) = false ->
  run (stewardship borough species) t = inl ValueError.
Proof.
  intros Hu. rewrite run_stewardship. now apply steward_figure_duplicates.
Qed.

Lemma stewardship_duplicate_pair_raises_witness :
  unique_cells
    (select "Queens" "Ginkgo"
       [mkRow "Ginkgo" "Queens" "Good" "0" 5;
        mkRow "Ginkgo" "Queens" "Good" "0" 2]) = false
  /\ run (stewardship "Queens" "Ginkgo")
         [mkRow "Ginkgo" "Queens" "Good" "0" 5;
          mkRow "Ginkgo" "Queens" "Good" "0" 2] = inl ValueError.
Proof.
  split; [reflexivity |].
  apply (stewardship_duplicate_pair_raises
           [mkRow "Ginkgo" "Queens" "Good" "0" 5;
            mkRow "Ginkgo" "Queens" "Good" "0" 2] "Queens" "Ginkgo").
  reflexivity.
Defined.

(** The second view does not depend on the order of the table's rows
    either, whether it returns or raises. *)
Theorem stewardship_row_order (t t' : list Row) (borough species : string) :
  Permutation t t' ->
  run (stewardship borough species) t = run (stewardship borough species) t'.
Proof.
  intros H. apply (select_perm borough species) in H.
  destruct (unique_cells (select borough species t)) eqn:Hu.
  - pose proof Hu as Hu'. rewrite (unique_cells_perm _ _ H) in Hu'.
    rewrite !run_stewardship. unfold steward_figure.
    rewrite (hover_frame_rows _ Hu), (hover_frame_rows _ Hu'),
            (steward_health_frame_rows _ Hu),
            (steward_health_frame_rows _ Hu').
    rewrite (sorted_unique_perm _ _ (Permutation_map health H)).
    rewrite (map_ext
               (fun h => (h, map (filled None (Some 0) isna
                                    (fun m => Some (count_tree_id_x m))
                                    (select borough species t) h)
                                 categories))
               (fun h => (h, map (filled None (Some 0) isna
                                    (fun m => Some (count_tree_id_x m))
                                    (select borough species t') h)
                                 categories)))
      by (intros h; f_equal; apply map_ext; intros c;
          now apply filled_perm).
    rewrite (map_ext
               (fun h => (h, map (filled NaN (Fin 0) is_nan steward_p
                                    (select borough species t) h)
                                 categories))
               (fun h => (h, map (filled NaN (Fin 0) is_nan steward_p
                                    (select borough species t') h)
                                 categories)))
      by (intros h; f_equal; apply map_ext; intros c;
          now apply filled_perm).
    reflexivity.
  - pose proof Hu as Hu'. rewrite (unique_cells_perm _ _ H) in Hu'.
    rewrite !run_stewardship.
    now rewrite (steward_figure_duplicates _ _ _ Hu),
                (steward_figure_duplicates _ _ _ Hu').
Qed.

Lemma stewardship_row_order_witness :
  Permutation sample_table (rev sample_table)
  /\ run (stewardship "Bronx" "Red Maple") sample_table
     = run (stewardship "Bronx" "Red Maple") (rev sample_table).
Proof.
  split; [apply Permutation_rev |].
  apply (stewardship_row_order sample_table (rev sample_table)
           "Bronx" "Red Maple").
  apply Permutation_rev.
Defined.

(** ** When the second view returns *)

Lemma steward_figure_few_states (borough species : string)
    (df : list Row) :
  unique_cells df = true ->
  (List.length (sorted_unique (map health df)) < 3)%nat ->
  steward_figure borough species df
  = inl (KeyError
           (if (List.length (sorted_unique (map health df)) <? 2)%nat
            then 1 else 2)).
Proof.
  intros Hu Hn. unfold steward_figure.
  rewrite (hover_frame_rows _ Hu), (steward_health_frame_rows _ Hu).
  destruct (sorted_unique (map health df)) as [| a [| b [| c l]]];
    cbn [List.length] in Hn; try lia; reflexivity.
Qed.

Lemma steward_figure_three_states (borough species : string)
    (df : list Row) :
  unique_cells df = true ->
  (3 <= List.length (sorted_unique (map health df)))%nat ->
  exists fig, steward_figure borough species df = inr fig.
Proof.
  intros Hu Hn. unfold steward_figure.
  rewrite (hover_frame_rows _ Hu), (steward_health_frame_rows _ Hu).
  destruct (sorted_unique (map health df)) as [| a [| b [| c l]]];
    cbn [List.length] in Hn; try lia.
  eexists. reflexivity.
Qed.

Lemma steward_figure_returns_iff (borough species : string)
    (df : list Row) :
  (exists fig, steward_figure borough species df = inr fig)
  <-> unique_cells df = true
      /\ (3 <= List.length (sorted_unique (map health df)))%nat.
Proof.
  split.
  - intros [fig Hrun]. destruct (unique_cells df) eqn:Hu.
    + split; [reflexivity |].
      destruct (Nat.lt_ge_cases
                  (List.length (sorted_unique (map health df))) 3)
        as [Hlt | Hge]; [| exact Hge].
      rewrite (steward_figure_few_states borough species df Hu Hlt) in Hrun.
      discriminate.
    + rewrite (steward_figure_duplicates borough species df Hu) in Hrun.
      discriminate.
  - intros [Hu Hn]. now apply steward_figure_three_states.
Qed.

(** With no repeated pair but fewer than three distinct health states among
    the matching rows, a row lookup of lines 133-148 raises [KeyError]: at
    label 1 with at most one state, at label 2 with two. *)
Theorem stewardship_few_states_raise (t : list Row)
    (borough species : string) :
  unique_cells (select borough species t) = true ->
  (List.length (sorted_unique (map health (select borough species t)))
   < 3)%nat ->
  run (stewardship borough species) t
  = inl (KeyError
           (if (List.length
                  (sorted_unique (map health (select borough species t)))
                <? 2)%nat
            then 1 else 2)).
Proof.
  intros Hu Hn. rewrite run_stewardship.
  now apply steward_figure_few_states.
Qed.

Lemma stewardship_few_states_raise_witness :
  unique_cells (select "Bronx" "Pin Oak" sample_table) = true
  /\ (List.length
        (sorted_unique (map health (select "Bronx" "Pin Oak" sample_table)))
      < 3)%nat
  /\ run (stewardship "Bronx" "Pin Oak") sample_table = inl (KeyError 2).
Proof.
  split; [reflexivity |]. split; [vm_compute; lia |].
  apply (stewardship_few_states_raise sample_table "Bronx" "Pin Oak");
    [reflexivity | vm_compute; lia].
Defined.

(** The second callback returns a figure exactly when the matching rows
    repeat no (health, steward) pair and hold at least three distinct health
    states. *)
Theorem stewardship_returns_iff (t : list Row) (borough species : string) :
  (exists fig, run (stewardship borough species) t = inr fig)
  <-> unique_cells (select borough species t) = true
      /\ (3 <= List.length
                 (sorted_unique (map health (select borough species t))))%nat.
Proof.
  rewrite run_stewardship. apply steward_figure_returns_iff.
Qed.

(** On a table that meets the invariant, the second callback returns a
    figure for a selection exactly when Fair, Good and Poor all occur among
    the matching rows. *)
Theorem stewardship_returns_iff_all_states (t : list Row)
    (borough species : string) :
  wf_table t = true ->
  ((exists fig, run (stewardship borough species) t = inr fig)
   <-> present (map health (select borough species t)) "Fair" = true
       /\ present (map health (select borough species t)) "Good" = true
       /\ present (map health (select borough species t)) "Poor" = true).
Proof.
  intros Hwf.
  destruct (wf_table_select borough species t Hwf) as [Hv Hu].
  rewrite run_stewardship, steward_figure_returns_iff.
  rewrite (health_keys _ Hv). cbn [filter].
  destruct (present (map health (select borough species t)) "Fair"),
           (present (map health (select borough species t)) "Good"),
           (present (map health (select borough species t)) "Poor");
    cbn [List.length]; split; intros H;
    try (destruct H as [_ H]; lia);
    try (destruct H as [H1 [H2 H3]]; discriminate);
    repeat split; try reflexivity; try assumption; lia.
Qed.

Lemma stewardship_returns_iff_all_states_witness :
  wf_table sample_table = true
  /\ ((exists fig,
         run (stewardship "Bronx" "Red Maple") sample_table = inr fig)
      <-> present (map health (select "Bronx" "Red Maple" sample_table))
                  "Fair" = true
          /\ present (map health (select "Bronx" "Red Maple" sample_table))
                     "Good" = true
          /\ present (map health (select "Bronx" "Red Maple" sample_table))
                     "Poor" = true).
Proof.
  split; [reflexivity |].
  apply (stewardship_returns_iff_all_states sample_table
           "Bronx" "Red Maple").
  reflexivity.
Defined.

(** ** The hover text of the second view *)

Lemma filled_hover (df : list Row) (h c : string) :
  unique_cells df = true ->
  filled None (Some 0) isna (fun m => Some (count_tree_id_x m)) df h c
  = Some (cell_count df h c).
Proof.
  intros Hu. unfold filled.
  rewrite pivot_cell_merged, (cell_count_find df h c Hu).
  destruct (find_cell df h c); reflexivity.
Qed.

Lemma hover_frame_counts (df : list Row) :
  unique_cells df = true ->
  hover_frame (merged_p df)
  = inr (map (fun h => (h, map (fun c => Some (cell_count df h c))
                               categories))
             (sorted_unique (map health df))).
Proof.
  intros Hu. rewrite (hover_frame_rows df Hu). f_equal.
  apply map_ext. intros h. f_equal. apply map_ext. intros c.
  now apply filled_hover.
Qed.

Lemma cell_count_row (df : list Row) (r : Row) :
  unique_cells df = true -> In r df ->
  cell_count df (health r) (steward r) = count_tree_id r.
Proof.
  intros Hu Hr.
  now rewrite (cell_count_find df _ _ Hu), (find_cell_unique df r Hu Hr).
Qed.

Lemma cell_count_sym (df : list Row) (h c : string) :
  cell_count df h c
  = group_sum steward c (filter (fun r => (health r =? h)%string) df).
Proof.
  unfold cell_count, group_sum. induction df as [| r df IH]; [reflexivity |].
  cbn [filter].
  destruct (steward r =? c)%string eqn:Es, (health r =? h)%string eqn:Eh;
    cbn [filter map Zsum fold_right]; rewrite ?Es, ?Eh;
    cbn [filter map Zsum fold_right];
    fold (Zsum (map count_tree_id
                    (filter (fun r => (health r =? h)%string)
                            (filter (fun r => (steward r =? c)%string) df))));
    fold (Zsum (map count_tree_id
                    (filter (fun r => (steward r =? c)%string)
                            (filter (fun r => (health r =? h)%string) df))));
    lia.
Qed.

Lemma valid_steward_In (df : list Row) (r : Row) :
  valid_steward df = true -> In r df -> In (steward r) categories.
Proof.
  unfold valid_steward. rewrite forallb_forall. intros H Hr.
  specialize (H r Hr). now apply (present_In categories) in H.
Qed.

Lemma cell_counts_health (df : list Row) (h : string) :
  valid_steward df = true ->
  Zsum (map (fun c => cell_count df h c) categories)
  = group_sum health h df.
Proof.
  intros Hv.
  rewrite (Zsum_map_ext _ (fun c =>
      group_sum steward c (filter (fun r => (health r =? h)%string) df)))
    by (intros; apply cell_count_sym).
  rewrite (group_sums_total steward categories).
  - reflexivity.
  - repeat constructor; simpl; intuition discriminate.
  - intros r Hr. apply filter_In in Hr. destruct Hr as [Hr _].
    now apply (valid_steward_In df).
Qed.

Section Hover.
Variables (t : list Row) (borough species : string).
Local Abbreviation df := (select borough species t).
Hypothesis Hunique : unique_cells df = true.

(** Without a repeated pair among the matching rows, lines 123-125 yield
    the frame [hover], one row per health state that occurs; in it the cell
    of a matching row is the row's count, the cell of a pair no row carries
    is zero, and the cells of a bucket's column add up to the bucket's total
    count. *)
Theorem hover_counts :
  exists hover,
    hover_frame (merged_p df) = inr hover
    /\ map fst hover = sorted_unique (map health df)
    /\ forall j c, nth_error categories j = Some c ->
         (forall r, In r df -> steward r = c ->
                    cell_at hover (health r) j = Some (Some (count_tree_id r)))
         /\ (forall h, In h (map health df) -> find_cell df h c = None ->
                       cell_at hover h j = Some (Some 0))
         /\ Zsum (map hover_count (column None j hover))
            = group_sum steward c df.
Proof.
  eexists. split; [now apply hover_frame_counts |].
  split; [rewrite map_map; cbn [fst]; apply map_id |].
  intros j c Hj. split; [| split].
  - intros r Hr Hs. unfold cell_at.
    rewrite find_key_map by (apply sorted_unique_In; now apply in_map).
    cbn [snd]. rewrite (map_nth_error _ _ _ Hj).
    now rewrite <- Hs, (cell_count_row df r Hunique Hr).
  - intros h Hh Hnone. unfold cell_at.
    rewrite find_key_map by now apply sorted_unique_In.
    cbn [snd]. rewrite (map_nth_error _ _ _ Hj).
    now rewrite (cell_count_find df h c Hunique), Hnone.
  - rewrite (column_of_rows None (fun h c => Some (cell_count df h c))
               (sorted_unique (map health df)) j c Hj).
    rewrite map_map. cbn [hover_count]. apply cell_counts_total.
Qed.

(** When moreover every steward value is one of the four buckets, the cells
    of a health state's row of [hover] add up to the count the first view
    takes that state's share from. *)
Theorem hover_rows_match_first_view :
  valid_steward df = true ->
  exists hover,
    hover_frame (merged_p df) = inr hover
    /\ forall row, In row hover ->
         Zsum (map hover_count (snd row)) = group_sum health (fst row) df.
Proof.
  intros Hv. eexists. split; [now apply hover_frame_counts |].
  intros row Hrow. apply in_map_iff in Hrow. destruct Hrow as [h [<- _]].
  cbn [fst snd]. rewrite map_map. cbn [hover_count].
  now apply cell_counts_health.
Qed.
End Hover.

Lemma hover_counts_witness :
  unique_cells (select "Bronx" "Red Maple" sample_table) = true
  /\ exists hover,
       hover_frame (merged_p (select "Bronx" "Red Maple" sample_table))
       = inr hover
       /\ map fst hover
          = sorted_unique
              (map health (select "Bronx" "Red Maple" sample_table))
       /\ forall j c, nth_error categories j = Some c ->
            (forall r, In r (select "Bronx" "Red Maple" sample_table) ->
                       steward r = c ->
                       cell_at hover (health r) j
                       = Some (Some (count_tree_id r)))
            /\ (forall h,
                   In h (map health
                             (select "Bronx" "Red Maple" sample_table)) ->
                   find_cell (select "Bronx" "Red Maple" sample_table) h c
                   = None ->
                   cell_at hover h j = Some (Some 0))
            /\ Zsum (map hover_count (column None j hover))
               = group_sum steward c
                   (select "Bronx" "Red Maple" sample_table).
Proof.
  split; [reflexivity |].
  apply (hover_counts sample_table "Bronx" "Red Maple"). reflexivity.
Defined.

Lemma hover_rows_match_first_view_witness :
  unique_cells (select "Bronx" "Red Maple" sample_table) = true
  /\ valid_steward (select "Bronx" "Red Maple" sample_table) = true
  /\ exists hover,
       hover_frame (merged_p (select "Bronx" "Red Maple" sample_table))
       = inr hover
       /\ forall row, In row hover ->
            Zsum (map hover_count (snd row))
            = group_sum health (fst row)
                (select "Bronx" "Red Maple" sample_table).
Proof.
  split; [reflexivity |]. split; [reflexivity |].
  apply (hover_rows_match_first_view sample_table "Bronx" "Red Maple");
    reflexivity.
Defined.

(** ** Heights between 0 and 1 *)

Lemma round_half_even_unit (c d : Z) :
  0 <= c <= d -> 0 < d -> 0 <= round_half_even (100 * c) d <= 100.
Proof.
  intros Hc Hd.
  pose proof (round_half_even_error (100 * c) d ltac:(lia)) as H. nia.
Qed.

Lemma div_round2_unit (c d : Z) :
  0 <= c <= d -> d <> 0 -> unit_interval (div_round2 c d).
Proof.
  intros Hc Hd. rewrite div_round2_fin by exact Hd.
  eexists. split; [reflexivity |]. apply round_half_even_unit; lia.
Qed.

Lemma unit_interval_zero : unit_interval (Fin 0).
Proof. exists 0. split; [reflexivity | lia]. Qed.

Lemma filter_sum_bounds (p : Row -> bool) (df : list Row) :
  nonneg_counts df = true ->
  0 <= Zsum (map count_tree_id (filter p df)) <= total df.
Proof.
  unfold nonneg_counts, total. induction df as [| r df IH]; cbn; [lia |].
  rewrite andb_true_iff, Z.leb_le. intros [Hr Hdf]. specialize (IH Hdf).
  fold (Zsum (map count_tree_id df)).
  destruct (p r); cbn;
    try fold (Zsum (map count_tree_id (filter p df))); lia.
Qed.

Lemma filter_sum_member (p : Row -> bool) (df : list Row) (r : Row) :
  nonneg_counts df = true -> In r df -> p r = true ->
  0 <= count_tree_id r <= Zsum (map count_tree_id (filter p df)).
Proof.
  intros Hn Hr Hp. induction df as [| x df IH]; [destruct Hr |].
  pose proof Hn as Hn'. unfold nonneg_counts in Hn'. cbn [forallb] in Hn'.
  rewrite andb_true_iff, Z.leb_le in Hn'. destruct Hn' as [Hx Hdf].
  pose proof (filter_sum_bounds p df Hdf) as Hb.
  cbn [filter]. destruct Hr as [-> | Hr].
  - rewrite Hp. cbn. fold (Zsum (map count_tree_id (filter p df))). lia.
  - specialize (IH Hdf Hr).
    destruct (p x); cbn;
      try fold (Zsum (map count_tree_id (filter p df))); lia.
Qed.

Lemma group_sum_bounds (key : Row -> string) (k : string) (df : list Row) :
  nonneg_counts df = true -> 0 <= group_sum key k df <= total df.
Proof. intros H. unfold group_sum. now apply filter_sum_bounds. Qed.

(** With non-negative counts every cell of the proportion frame is a finite
    value between 0 and 1, also in a bucket whose counts are all zero. *)
Lemma filled_unit (df : list Row) (h c : string) :
  nonneg_counts df = true ->
  unit_interval (filled NaN (Fin 0) is_nan steward_p df h c).
Proof.
  intros Hn. unfold filled. rewrite pivot_cell_merged.
  destruct (find_cell df h c) as [r |] eqn:E; [| apply unit_interval_zero].
  apply find_cell_In in E. destruct E as [Hr _].
  unfold steward_p, bucket_total. cbn [snd].
  pose proof (filter_sum_member
                (fun x => (steward x =? steward r)%string) df r Hn Hr
                (String.eqb_refl _)) as Hb.
  fold (group_sum steward (steward r) df) in Hb.
  destruct (Z.eq_dec (group_sum steward (steward r) df) 0) as [E0 | E0].
  - rewrite E0 in *. assert (count_tree_id r = 0) as -> by lia.
    apply unit_interval_zero.
  - pose proof (div_round2_unit _ _ Hb E0) as [v [Ev Hv]].
    rewrite Ev. cbn [is_nan]. now exists v.
Qed.

(** With non-negative counts and no repeated pair among the matching rows,
    every row of the proportion frame holds four finite values between 0 and
    1, and so does every trace of a figure the callback returns, next to
    four hover counts over the four buckets. *)
Theorem stewardship_heights_in_unit_interval (t : list Row)
    (borough species : string) :
  unique_cells (select borough species t) = true ->
  nonneg_counts (select borough species t) = true ->
  exists frame,
    steward_health_frame (merged_p (select borough species t)) = inr frame
    /\ (forall row, In row frame ->
          List.length (snd row) = 4%nat /\ Forall unit_interval (snd row))
    /\ (forall fig, run (stewardship borough species) t = inr fig ->
          forall tr, In tr (sf_data fig) ->
            tr_x tr = categories
            /\ List.length (tr_text tr) = 4%nat
            /\ List.length (tr_y tr) = 4%nat
            /\ Forall unit_interval (tr_y tr)).
Proof.
  intros Hu Hn. eexists. split; [now apply steward_health_frame_rows |].
  assert (Hrows : forall row,
             In row (map (fun h =>
                            (h, map (filled NaN (Fin 0) is_nan steward_p
                                       (select borough species t) h)
                                    categories))
                         (sorted_unique
                            (map health (select borough species t)))) ->
             List.length (snd row) = 4%nat
             /\ Forall unit_interval (snd row)).
  { intros row Hrow. apply in_map_iff in Hrow. destruct Hrow as [h [<- _]].
    cbn [snd]. split; [reflexivity |].
    apply Forall_forall. intros y Hy. apply in_map_iff in Hy.
    destruct Hy as [c [<- _]]. now apply filled_unit. }
  split; [exact Hrows |].
  intros fig Hrun tr Htr. rewrite run_stewardship in Hrun.
  apply steward_figure_inv in Hrun.
  destruct Hrun as (hover & frame & y0 & y1 & y2 & t0 & t1 & t2 & Hh & Hf
                    & H0 & H1 & H2 & G0 & G1 & G2 & ->).
  rewrite (steward_health_frame_rows _ Hu) in Hf.
  rewrite (hover_frame_rows _ Hu) in Hh.
  assert (Hf' : map (fun h =>
                       (h, map (filled NaN (Fin 0) is_nan steward_p
                                  (select borough species t) h) categories))
                    (sorted_unique (map health (select borough species t)))
                = frame) by congruence.
  assert (Hh' : map (fun h =>
                       (h, map (filled None (Some 0) isna
                                  (fun m => Some (count_tree_id_x m))
                                  (select borough species t) h) categories))
                    (sorted_unique (map health (select borough species t)))
                = hover) by congruence.
  assert (Htext : forall row, In row hover ->
                              List.length (snd row) = 4%nat).
  { intros row Hrow. rewrite <- Hh' in Hrow. apply in_map_iff in Hrow.
    destruct Hrow as [h [<- _]]. reflexivity. }
  apply nth_error_In in H0, H1, H2, G0, G1, G2.
  rewrite <- Hf' in H0, H1, H2.
  cbn [sf_data] in Htr.
  destruct Htr as [<- | [<- | [<- | []]]]; cbn [tr_x tr_y tr_text];
    (split; [reflexivity |]); (split; [now apply Htext |]);
    now apply Hrows.
Qed.

Lemma stewardship_heights_in_unit_interval_witness :
  unique_cells (select "Bronx" "Red Maple" sample_table) = true
  /\ nonneg_counts (select "Bronx" "Red Maple" sample_table) = true
  /\ exists frame,
       steward_health_frame
         (merged_p (select "Bronx" "Red Maple" sample_table)) = inr frame
       /\ (forall row, In row frame ->
             List.length (snd row) = 4%nat /\ Forall unit_interval (snd row))
       /\ (forall fig,
             run (stewardship "Bronx" "Red Maple") sample_table = inr fig ->
             forall tr, In tr (sf_data fig) ->
               tr_x tr = categories
               /\ List.length (tr_text tr) = 4%nat
               /\ List.length (tr_y tr) = 4%nat
               /\ Forall unit_interval (tr_y tr)).
Proof.
  split; [reflexivity |]. split; [reflexivity |].
  apply (stewardship_heights_in_unit_interval sample_table
           "Bronx" "Red Maple"); reflexivity.
Defined.

(** ** The bars of the first view *)

Lemma proportions_keys (df : list Row) :
  valid_health df = true ->
  proportions df
  = map (fun k => (k, div_round2 (group_sum health k df) (total df)))
        (filter (present (map health df)) ["Fair"; "Good"; "Poor"]).
Proof.
  intros Hv. unfold proportions, groupby_sum.
  rewrite map_map, (health_keys df Hv). reflexivity.
Qed.

(** With non-negative counts adding up to a nonzero total, every height of
    the first view is a finite value between 0 and 1. *)
Theorem health_prop_heights_in_unit_interval (t : list Row)
    (borough species : string) :
  valid_health (select borough species t) = true ->
  nonneg_counts (select borough species t) = true ->
  total (select borough species t) <> 0 ->
  exists fig,
    run (health_prop borough species) t = inr fig
    /\ Forall unit_interval (hf_y fig).
Proof.
  intros Hv Hn Ht. rewrite run_health_prop. eexists.
  split; [reflexivity |]. rewrite health_figure_y.
  set (df := select borough species t) in *.
  rewrite (proportions_keys df Hv).
  assert (Hb : forall k,
             unit_interval (div_round2 (group_sum health k df) (total df))).
  { intros k. apply div_round2_unit; [| exact Ht].
    now apply group_sum_bounds. }
  pose proof (Hb "Fair") as Hf. pose proof (Hb "Good") as Hg.
  pose proof (Hb "Poor") as Hp. clear Hb.
  pose proof unit_interval_zero as Hz.
  cbn [filter].
  destruct (present (map health df) "Fair"),
           (present (map health df) "Good"),
           (present (map health df) "Poor");
    cbn [map];
    revert Hf Hg Hp;
    generalize (div_round2 (group_sum health "Fair" df) (total df));
    generalize (div_round2 (group_sum health "Good" df) (total df));
    generalize (div_round2 (group_sum health "Poor" df) (total df));
    intros yp yg yf Hf Hg Hp;
    match goal with
    | |- Forall _ ?ys =>
        let ys' := eval vm_compute in ys in change ys with ys'
    end;
    repeat constructor; assumption.
Qed.

Lemma health_prop_heights_in_unit_interval_witness :
  valid_health (select "Bronx" "Red Maple" sample_table) = true
  /\ nonneg_counts (select "Bronx" "Red Maple" sample_table) = true
  /\ total (select "Bronx" "Red Maple" sample_table) <> 0
  /\ exists fig,
       run (health_prop "Bronx" "Red Maple") sample_table = inr fig
       /\ Forall unit_interval (hf_y fig).
Proof.
  split; [reflexivity |]. split; [reflexivity |].
  split; [vm_compute; discriminate |].
  apply (health_prop_heights_in_unit_interval sample_table
           "Bronx" "Red Maple");
    [reflexivity | reflexivity | vm_compute; discriminate].
Defined.

(** When exactly one health state has matching rows, the loop of lines
    85-87 leaves two bars: that state's and a zero Poor bar, or, when the
    state is Poor, a zero Good bar and the Poor bar. *)
Theorem health_prop_two_bars (t : list Row) (borough species h : string) :
  valid_health (select borough species t) = true ->
  sorted_unique (map health (select borough species t)) = [h] ->
  exists fig,
    run (health_prop borough species) t = inr fig
    /\ hf_x fig = (if (h =? "Poor")%string
                   then [Some "Good"; Some "Poor"]
                   else [Some h; Some "Poor"])
    /\ hf_y fig = (if (h =? "Poor")%string
                   then [Fin 0; share (select borough species t) h]
                   else [share (select borough species t) h; Fin 0]).
Proof.
  intros Hv Hk. rewrite run_health_prop. eexists.
  split; [reflexivity |]. rewrite health_figure_x, health_figure_y.
  set (df := select borough species t) in *.
  rewrite (health_keys df Hv) in Hk. rewrite (proportions_keys df Hv).
  unfold share. cbn [filter] in *.
  destruct (present (map health df) "Fair") eqn:Ef,
           (present (map health df) "Good") eqn:Eg,
           (present (map health df) "Poor") eqn:Ep;
    try discriminate Hk; injection Hk as <-;
    rewrite ?Ef, ?Eg, ?Ep; cbn [map String.eqb Ascii.eqb Bool.eqb];
    generalize (div_round2 (group_sum health "Fair" df) (total df));
    generalize (div_round2 (group_sum health "Good" df) (total df));
    generalize (div_round2 (group_sum health "Poor" df) (total df));
    intros yp yg yf; split; reflexivity.
Qed.

Lemma health_prop_two_bars_witness :
  valid_health (select "Queens" "Ginkgo" sample_table) = true
  /\ sorted_unique (map health (select "Queens" "Ginkgo" sample_table))
     = ["Good"]
  /\ exists fig,
       run (health_prop "Queens" "Ginkgo") sample_table = inr fig
       /\ hf_x fig = (if ("Good" =? "Poor")%string
                      then [Some "Good"; Some "Poor"]
                      else [Some "Good"; Some "Poor"])
       /\ hf_y fig = (if ("Good" =? "Poor")%string
                      then [Fin 0;
                            share (select "Queens" "Ginkgo" sample_table)
                                  "Good"]
                      else [share (select "Queens" "Ginkgo" sample_table)
                                  "Good"; Fin 0]).
Proof.
  split; [reflexivity |]. split; [reflexivity |].
  apply (health_prop_two_bars sample_table "Queens" "Ginkgo" "Good");
    reflexivity.
Defined.

Lemma loc_set_row {A : Type} (label : Z) (row : A) (f : Frame A) :
  In row (map snd (loc_set label row f)).
Proof.
  induction f as [| [l x] f IH]; cbn [loc_set]; [now left |].
  destruct (l =? label); cbn [map snd]; [now left | now right].
Qed.

Lemma fill_step_present (f : Frame (string * float2)) (i : string) :
  In i (map (fun r => fst (snd r)) (fill_step f i)).
Proof.
  unfold fill_step. destruct (all_ne i f) eqn:E.
  - rewrite <- (map_map snd fst).
    apply (in_map fst _ (i, Fin 0)), loc_set_row.
  - unfold all_ne in E.
    assert (H : exists row, In row f
                            /\ negb (i =? fst (snd row))%string = false).
    { clear -E. induction f as [| x f IH]; [discriminate |].
      cbn [forallb] in E. apply andb_false_iff in E. destruct E as [E | E].
      - exists x. split; [now left | exact E].
      - destruct (IH E) as [row [Hr Hn]]. exists row. split;
          [now right | exact Hn]. }
    destruct H as [row [Hr Hn]]. apply negb_false_iff, String.eqb_eq in Hn.
    apply in_map_iff. exists row. split; [now symmetry | exact Hr].
Qed.

Lemma insert_by_In {A : Type} (code : A -> nat) (x y : A) (l : list A) :
  In y (insert_by code x l) <-> y = x \/ In y l.
Proof.
  induction l as [| z l IH]; cbn [insert_by]; [cbn; intuition |].
  destruct (code x <=? code z)%nat; cbn [In]; [intuition |].
  rewrite IH. intuition.
Qed.

Lemma sort_values_In {A : Type} (code : A -> nat) (y : A) (l : list A) :
  In y (sort_values code l) <-> In y l.
Proof.
  unfold sort_values. induction l as [| x l IH]; cbn [fold_right In];
    [reflexivity |].
  rewrite insert_by_In, IH. intuition.
Qed.

(** Whatever rows match, the first callback returns a figure that has a
    Poor bar, and as many heights as it has bars. *)
Theorem health_prop_has_poor_bar (t : list Row) (borough species : string) :
  exists fig,
    run (health_prop borough species) t = inr fig
    /\ In (Some "Poor") (hf_x fig)
    /\ List.length (hf_x fig) = List.length (hf_y fig).
Proof.
  rewrite run_health_prop. eexists. split; [reflexivity |].
  unfold health_figure. cbn [hf_x hf_y]. split; [| now rewrite !length_map].
  set (df := select borough species t).
  pose proof (fill_step_present
                (fill_step (fill_step (reset_index (proportions df)) "Fair")
                           "Good") "Poor") as H.
  apply in_map_iff in H. destruct H as [[l [h y]] [E Hrow]].
  cbn [fst snd] in E. subst h.
  apply in_map_iff. exists (l, (Some "Poor", y)). split; [reflexivity |].
  apply sort_values_In. unfold health_frame, health_frame_of, to_categorical.
  apply in_map_iff. exists (l, ("Poor", y)). split; [reflexivity |].
  exact Hrow.
Qed.

(** ** More on data tidying *)

Lemma title_char_stable (b : bool) (c : ascii) :
  let c' := if b then to_lower c else to_upper c in
  (is_upper c' || is_lower c') = (is_upper c || is_lower c)
  /\ (if b then to_lower c' else to_upper c') = c'.
Proof.
  destruct b, c as [[] [] [] [] [] [] [] []]; split; reflexivity.
Qed.

Lemma title_from_idempotent (b : bool) (s : string) :
  title_from b (title_from b s) = title_from b s.
Proof.
  revert b. induction s as [| c s IH]; intros b; [reflexivity |].
  cbn [title_from].
  destruct (title_char_stable b c) as [Hc Hs]. cbv zeta in Hc, Hs.
  rewrite Hc, Hs, IH. reflexivity.
Qed.

Lemma normalize_species_idempotent (s : string) :
  normalize_species (normalize_species s) = normalize_species s.
Proof.
  unfold normalize_species, replace_schubert, replace, title.
  destruct (String.eqb_spec (title_from false s) "'Schubert' Chokecherry")
    as [E | E].
  - reflexivity.
  - rewrite title_from_idempotent.
    destruct (String.eqb_spec (title_from false s) "'Schubert' Chokecherry");
      [contradiction | reflexivity].
Qed.

Lemma normalize_steward_cases (s : string) :
  normalize_steward s
  = if (s =? "None")%string then "0"
    else if (s =? "1or2")%string then "1-2"
    else if (s =? "3or4")%string then "3-4"
    else if (s =? "4orMore")%string then "4+"
    else s.
Proof.
  unfold normalize_steward, replace.
  destruct (String.eqb_spec s "None") as [-> | H1]; [reflexivity |].
  destruct (String.eqb_spec s "1or2") as [-> | H2]; [reflexivity |].
  destruct (String.eqb_spec s "3or4") as [-> | H3]; [reflexivity |].
  destruct (String.eqb_spec s "4orMore") as [-> | H4]; reflexivity.
Qed.

Lemma normalize_steward_idempotent (s : string) :
  normalize_steward (normalize_steward s) = normalize_steward s.
Proof.
  rewrite (normalize_steward_cases s).
  destruct (String.eqb_spec s "None"); [reflexivity |].
  destruct (String.eqb_spec s "1or2"); [reflexivity |].
  destruct (String.eqb_spec s "3or4"); [reflexivity |].
  destruct (String.eqb_spec s "4orMore"); [reflexivity |].
  rewrite (normalize_steward_cases s).
  destruct (String.eqb_spec s "None"); [contradiction |].
  destruct (String.eqb_spec s "1or2"); [contradiction |].
  destruct (String.eqb_spec s "3or4"); [contradiction |].
  destruct (String.eqb_spec s "4orMore"); [contradiction | reflexivity].
Qed.

Lemma tidy_raw_idempotent (r : RawRow) : tidy_raw (tidy_raw r) = tidy_raw r.
Proof.
  destruct r as [s b h w c]. unfold tidy_raw, set_steward, set_spc_common.
  cbn [raw_spc_common raw_boroname raw_health raw_steward raw_count_tree_id].
  f_equal.
  - destruct s as [s |]; [| reflexivity]. cbn [option_map]. f_equal.
    apply (normalize_species_idempotent s).
  - destruct w as [w |]; [| reflexivity]. cbn [option_map]. f_equal.
    apply normalize_steward_idempotent.
Qed.

Lemma dropna_complete (t : list RawRow) :
  forallb (fun r => negb (any_na r)) t = true -> dropna t = t.
Proof.
  unfold dropna. induction t as [| r t IH]; [reflexivity |].
  cbn [forallb filter]. rewrite andb_true_iff. intros [Hr Ht].
  rewrite Hr. now rewrite IH.
Qed.

(** Tidying a second time changes nothing: neither a full row nor the
    tidied frame. *)
Theorem tidy_idempotent :
  (forall r, tidy_row (tidy_row r) = tidy_row r)
  /\ (forall fetched, tidy (tidy fetched) = tidy fetched).
Proof.
  split.
  - intros r. unfold tidy_row.
    cbn [spc_common boroname health steward count_tree_id].
    now rewrite normalize_species_idempotent, normalize_steward_idempotent.
  - intros fetched. rewrite (tidy_rows (tidy fetched)).
    rewrite (dropna_complete _ (tidy_complete fetched)).
    rewrite tidy_rows, map_map. apply map_ext. intros r.
    apply tidy_raw_idempotent.
Qed.

Lemma canonical_after_normalize (s : string) :
  existsb (String.eqb (normalize_steward s)) categories
  = existsb (String.eqb s)
            (["None"; "1or2"; "3or4"; "4orMore"] ++ categories).
Proof.
  rewrite normalize_steward_cases.
  destruct (String.eqb_spec s "None") as [-> | H1]; [reflexivity |].
  destruct (String.eqb_spec s "1or2") as [-> | H2]; [reflexivity |].
  destruct (String.eqb_spec s "3or4") as [-> | H3]; [reflexivity |].
  destruct (String.eqb_spec s "4orMore") as [-> | H4]; [reflexivity |].
  cbn [app existsb].
  apply String.eqb_neq in H1, H2, H3, H4. now rewrite H1, H2, H3, H4.
Qed.

Lemma raw_label_gone (s : string) :
  ~ In (normalize_steward s) ["None"; "1or2"; "3or4"; "4orMore"].
Proof.
  rewrite normalize_steward_cases.
  destruct (String.eqb_spec s "None") as [-> | H1];
    [cbn; intuition discriminate |].
  destruct (String.eqb_spec s "1or2") as [-> | H2];
    [cbn; intuition discriminate |].
  destruct (String.eqb_spec s "3or4") as [-> | H3];
    [cbn; intuition discriminate |].
  destruct (String.eqb_spec s "4orMore") as [-> | H4];
    [cbn; intuition discriminate |].
  cbn. intuition congruence.
Qed.

(** No loaded row keeps one of the four raw steward labels, and the loaded
    steward values are all among the four buckets exactly when every full
    fetched row carries a raw label or a bucket already. *)
Theorem loaded_steward_values (fetched : list RawRow) :
  Forall (fun r => ~ In (steward r) ["None"; "1or2"; "3or4"; "4orMore"])
         (load fetched)
  /\ valid_steward (load fetched)
     = forallb (fun r =>
                  existsb (String.eqb (steward r))
                          (["None"; "1or2"; "3or4"; "4orMore"] ++ categories))
               (to_rows fetched).
Proof.
  rewrite load_rows. split.
  - apply Forall_forall. intros r Hr. apply in_map_iff in Hr.
    destruct Hr as [x [<- _]]. cbn [tidy_row steward]. apply raw_label_gone.
  - unfold valid_steward. induction (to_rows fetched) as [| x l IH];
      [reflexivity |].
    cbn [map forallb]. rewrite IH. f_equal.
    cbn [tidy_row steward]. apply canonical_after_normalize.
Qed.

(** Tidying touches the species and steward columns only: the borough,
    health and count columns of the loaded table are those of the full
    fetched rows, and so are the borough dropdown's options. *)
Theorem tidy_keeps_other_columns (fetched : list RawRow) :
  map boroname (load fetched) = map boroname (to_rows fetched)
  /\ map health (load fetched) = map health (to_rows fetched)
  /\ map count_tree_id (load fetched) = map count_tree_id (to_rows fetched)
  /\ borough_options (load fetched) = borough_options (to_rows fetched)
  /\ List.length (load fetched) = List.length (to_rows fetched).
Proof.
  unfold borough_options. rewrite load_rows, !map_map, length_map.
  repeat split; reflexivity.
Qed.

(** ** Rounded values whatever the tie *)

Lemma div_round2_rounds_to (c d : Z) : rounds_to c d (div_round2 c d).
Proof.
  unfold div_round2.
  destruct (Z.eqb_spec d 0) as [-> | Hd].
  - destruct (Z.eqb_spec c 0) as [-> | Hc]; [now split |].
    destruct (Z.ltb_spec 0 c); cbn [rounds_to]; split; lia.
  - cbn [rounds_to]. split; [exact Hd |].
    now apply round_half_even_error.
Qed.

(** When at least two of the three health states have matching rows, the
    first view shows Good, Fair and Poor in this order; a state with rows
    stands at a hundredth nearest to its count over the total, a state
    without rows at zero. *)
Theorem health_prop_three_bars (t : list Row) (borough species : string) :
  valid_health (select borough species t) = true ->
  (2 <= List.length
          (sorted_unique (map health (select borough species t))))%nat ->
  exists fig yg yf yp,
    run (health_prop borough species) t = inr fig
    /\ hf_x fig = [Some "Good"; Some "Fair"; Some "Poor"]
    /\ hf_y fig = [yg; yf; yp]
    /\ bar_height (select borough species t) "Good" yg
    /\ bar_height (select borough species t) "Fair" yf
    /\ bar_height (select borough species t) "Poor" yp.
Proof.
  intros Hv Hn. rewrite run_health_prop.
  set (df := select borough species t) in *.
  assert (H : exists yg yf yp,
             map fst (bars_of (proportions df))
             = [Some "Good"; Some "Fair"; Some "Poor"]
             /\ map snd (bars_of (proportions df)) = [yg; yf; yp]
             /\ bar_height df "Good" yg /\ bar_height df "Fair" yf
             /\ bar_height df "Poor" yp).
  { rewrite (health_keys df Hv) in Hn. rewrite (proportions_keys df Hv).
    unfold bar_height.
    pose proof (div_round2_rounds_to (group_sum health "Fair" df) (total df))
      as Rf.
    pose proof (div_round2_rounds_to (group_sum health "Good" df) (total df))
      as Rg.
    pose proof (div_round2_rounds_to (group_sum health "Poor" df) (total df))
      as Rp.
    cbn [filter] in *.
    destruct (present (map health df) "Fair"),
             (present (map health df) "Good"),
             (present (map health df) "Poor");
      cbn [List.length] in Hn; try lia; cbn [map];
      revert Rf Rg Rp;
      generalize (div_round2 (group_sum health "Fair" df) (total df));
      generalize (div_round2 (group_sum health "Good" df) (total df));
      generalize (div_round2 (group_sum health "Poor" df) (total df));
      intros yp yg yf Rf Rg Rp;
      do 3 eexists;
      (split; [reflexivity |]); (split; [reflexivity |]);
      repeat split; first [assumption | reflexivity]. }
  destruct H as (yg & yf & yp & Hx & Hy & Hg & Hf & Hp).
  exists (health_figure borough species df), yg, yf, yp.
  rewrite health_figure_x, health_figure_y. repeat split; assumption.
Qed.

Lemma health_prop_three_bars_witness :
  valid_health (select "Bronx" "Pin Oak" sample_table) = true
  /\ (2 <= List.length
             (sorted_unique
                (map health (select "Bronx" "Pin Oak" sample_table))))%nat
  /\ exists fig yg yf yp,
       run (health_prop "Bronx" "Pin Oak") sample_table = inr fig
       /\ hf_x fig = [Some "Good"; Some "Fair"; Some "Poor"]
       /\ hf_y fig = [yg; yf; yp]
       /\ bar_height (select "Bronx" "Pin Oak" sample_table) "Good" yg
       /\ bar_height (select "Bronx" "Pin Oak" sample_table) "Fair" yf
       /\ bar_height (select "Bronx" "Pin Oak" sample_table) "Poor" yp.
Proof.
  split; [reflexivity |]. split; [vm_compute; lia |].
  apply (health_prop_three_bars sample_table "Bronx" "Pin Oak");
    [reflexivity | vm_compute; lia].
Defined.

(** ** The buckets in the second view *)

Section BucketView.
Variables (t : list Row) (borough species : string).
Local Abbreviation df := (select borough species t).
Hypothesis Hvalid : valid_health df = true.
Hypothesis Hunique : unique_cells df = true.

Lemma bucket_cell_rounds_to (j : nat) (c : string) (r : Row) :
  nth_error categories j = Some c ->
  In r df -> steward r = c -> group_sum steward c df <> 0 ->
  exists y,
    cell_at
      (map (fun h => (h, map (filled NaN (Fin 0) is_nan steward_p df h)
                             categories))
           (sorted_unique (map health df)))
      (health r) j = Some y
    /\ rounds_to (count_tree_id r) (group_sum steward c df) y.
Proof.
  intros Hj Hr Hs Ht. eexists. split.
  - exact (bucket_cell t borough species Hunique j c r Hj Hr Hs Ht).
  - apply div_round2_rounds_to.
Qed.

Lemma three_states_keys :
  present (map health df) "Fair" = true ->
  present (map health df) "Good" = true ->
  present (map health df) "Poor" = true ->
  sorted_unique (map health df) = ["Fair"; "Good"; "Poor"].
Proof.
  intros Hf Hg Hp. rewrite (health_keys df Hvalid). cbn [filter].
  now rewrite Hf, Hg, Hp.
Qed.

Lemma missing_state_keys :
  present (map health df) "Fair" && present (map health df) "Good"
  && present (map health df) "Poor" = false ->
  (List.length (sorted_unique (map health df)) < 3)%nat.
Proof.
  rewrite (health_keys df Hvalid). cbn [filter].
  destruct (present (map health df) "Fair"),
           (present (map health df) "Good"),
           (present (map health df) "Poor");
    cbn [andb List.length]; intros H; try discriminate H; lia.
Qed.

(** C2: with health states among the three and no repeated (health,
    steward) pair among the matching rows, lines 115-129 yield the frame
    [steward_health], in which the cell of a matching row is a hundredth
    nearest to its count over its bucket's total, and each bucket's column
    sums to 1.0 within rounding when the bucket's total is nonzero and is
    all zero when no matching row lies in the bucket.  The callback shows
    this frame only when Fair, Good and Poor all occur among the matching
    rows: then it returns a figure whose traces are the frame's rows and
    whose bars over each bucket have the same two properties; when a state
    is missing it raises [KeyError] at a row lookup and shows nothing. *)
Theorem stewardship_bucket_view :
  exists frame,
    steward_health_frame (merged_p df) = inr frame
    /\ map fst frame = sorted_unique (map health df)
    /\ (forall j c, nth_error categories j = Some c ->
          (forall r, In r df -> steward r = c ->
                     group_sum steward c df <> 0 ->
                     exists y,
                       cell_at frame (health r) j = Some y
                       /\ rounds_to (count_tree_id r)
                                    (group_sum steward c df) y)
          /\ (group_sum steward c df <> 0 ->
              sums_to_one (column NaN j frame))
          /\ (present (map steward df) c = false ->
              Forall (eq (Fin 0)) (column NaN j frame)))
    /\ (present (map health df) "Fair" = true ->
        present (map health df) "Good" = true ->
        present (map health df) "Poor" = true ->
        exists fig,
          run (stewardship borough species) t = inr fig
          /\ map (fun tr => Some (tr_name tr, tr_y tr)) (sf_data fig)
             = map (nth_error frame) [1; 0; 2]%nat
          /\ forall j c, nth_error categories j = Some c ->
               (group_sum steward c df <> 0 ->
                sums_to_one (bars_over j fig))
               /\ (present (map steward df) c = false ->
                   Forall (eq (Fin 0)) (bars_over j fig)))
    /\ (present (map health df) "Fair" && present (map health df) "Good"
        && present (map health df) "Poor" = false ->
        run (stewardship borough species) t
        = inl (KeyError
                 (if (List.length (sorted_unique (map health df)) <? 2)%nat
                  then 1 else 2))).
Proof.
  eexists. split; [now apply steward_health_frame_rows |].
  split; [rewrite map_map; cbn [fst]; apply map_id |].
  split; [| split].
  - intros j c Hj. split; [| split].
    + intros r Hr Hs Ht. now apply bucket_cell_rounds_to.
    + exact (bucket_sums_to_one t borough species Hvalid Hunique j c Hj).
    + exact (bucket_all_zero t borough species j c Hj).
  - intros Hf Hg Hp.
    pose proof (three_states_keys Hf Hg Hp) as Hk.
    rewrite run_stewardship. unfold steward_figure.
    rewrite (hover_frame_rows df Hunique),
            (steward_health_frame_rows df Hunique), Hk.
    cbn [map ebind loc nth_error fst snd].
    eexists. split; [reflexivity |]. split; [reflexivity |].
    intros j c Hj.
    pose proof (bucket_sums_to_one t borough species Hvalid Hunique j c Hj)
      as Hsum.
    pose proof (bucket_all_zero t borough species j c Hj) as Hzero.
    rewrite Hk in Hsum, Hzero. unfold column in Hsum, Hzero.
    cbn [map snd] in Hsum, Hzero.
    unfold bars_over. cbn [sf_data map tr_y]. split.
    + intros Ht. apply sums_to_one_swap. now apply Hsum.
    + intros Hc. specialize (Hzero Hc).
      inversion Hzero as [| ? ? Ha Hzero']. subst.
      inversion Hzero' as [| ? ? Hb Hzero'']. subst.
      inversion Hzero'' as [| ? ? Hc' _]. subst.
      repeat constructor; assumption.
  - intros Hmiss. rewrite run_stewardship.
    apply steward_figure_few_states; [exact Hunique |].
    now apply missing_state_keys.
Qed.
End BucketView.

Lemma stewardship_bucket_view_witness :
  valid_health (select "Bronx" "Pin Oak" sample_table) = true
  /\ unique_cells (select "Bronx" "Pin Oak" sample_table) = true
  /\ group_sum steward "0" (select "Bronx" "Pin Oak" sample_table) = 30
  /\ present (map health (select "Bronx" "Pin Oak" sample_table)) "Fair"
     && present (map health (select "Bronx" "Pin Oak" sample_table)) "Good"
     && present (map health (select "Bronx" "Pin Oak" sample_table)) "Poor"
     = false
  /\ run (stewardship "Bronx" "Pin Oak") sample_table = inl (KeyError 2).
Proof.
  split; [reflexivity |]. split; [reflexivity |].
  split; [reflexivity |]. split; [reflexivity |].
  destruct (stewardship_bucket_view sample_table "Bronx" "Pin Oak"
              eq_refl eq_refl) as (frame & _ & _ & _ & _ & Hraise).
  exact (Hraise eq_refl).
Defined.
